(** * ConfigurationParser: a shallow embedding of [week1_functions.py]

    The development embeds the [ConfigurationParser] class (construction,
    [add_validator], [add_transformer], [parse], [_load_from_file],
    [_convert_value], [_validate_config]) together with the few builtins of
    the language it calls, and proves properties of the embedded methods.

    Conventions.
    - A [str] is a [string]; each [ascii] is read as the code point of the
      same number (U+0000 .. U+00FF).
    - A [dict] is an association list in insertion order with unique keys.
    - Objects that the methods share or mutate live in a store ([heap]);
      methods are computations in a store-passing monad that also records
      the calls made to user code and the lines printed. *)

From Stdlib Require Import ZArith Lia Bool Ascii String Floats.
From stdpp Require Import base option list.
From Stdlib Require DecimalString DecimalZ DecimalN DecimalPos.

Local Open Scope Z_scope.
Local Open Scope string_scope.
Local Open Scope list_scope.

(** ** Builtins of the language used by the class *)

Module Py.

Definition ord (c : ascii) : N := N_of_ascii c.

Definition between (lo hi : N) (c : ascii) : bool :=
  ((lo <=? ord c) && (ord c <=? hi))%N.

(** [str.isspace] on one character, for code points below 256. *)
Definition isspace (c : ascii) : bool :=
  between 9 13 c || between 28 32 c || (ord c =? 133)%N || (ord c =? 160)%N.

(** Whitespace skipped by [int] and [float]: the ASCII blanks, and the
    non-ASCII spaces, which those builtins first turn into a blank. *)
Definition isblank (c : ascii) : bool :=
  between 9 13 c || (ord c =? 32)%N || ((127 <=? ord c)%N && isspace c).

Definition isdigit (c : ascii) : bool := between 48 57 c.

Definition digit_val (c : ascii) : option Z :=
  if isdigit c then Some (Z.of_N (ord c) - 48) else None.

Fixpoint lstrip_by (p : ascii -> bool) (s : string) : string :=
  match s with
  | String c s' => if p c then lstrip_by p s' else s
  | EmptyString => EmptyString
  end.

Fixpoint rstrip_by (p : ascii -> bool) (s : string) : string :=
  match s with
  | EmptyString => EmptyString
  | String c s' =>
      match rstrip_by p s' with
      | EmptyString => if p c then EmptyString else String c EmptyString
      | r => String c r
      end
  end.

Definition strip_by (p : ascii -> bool) (s : string) : string :=
  rstrip_by p (lstrip_by p s).

(** [c in chars] for a one-character [c]. *)
Fixpoint contains (c : ascii) (chars : string) : bool :=
  match chars with
  | EmptyString => false
  | String a r => Ascii.eqb a c || contains c r
  end.

(** [s.strip()] *)
Definition strip (s : string) : string := strip_by isspace s.

(** [s.strip(chars)] *)
Definition strip_chars (chars s : string) : string :=
  strip_by (fun c => contains c chars) s.

Definition lower_char (c : ascii) : ascii :=
  if between 65 90 c || (between 192 222 c && negb (ord c =? 215)%N)
  then ascii_of_N (ord c + 32) else c.

(** [s.lower()] *)
Fixpoint lower (s : string) : string :=
  match s with
  | EmptyString => EmptyString
  | String c r => String (lower_char c) (lower r)
  end.

(** [s in (t1, t2, ...)] *)
Definition in_tuple (s : string) (t : list string) : bool :=
  existsb (String.eqb s) t.

(** [s.startswith(p)] *)
Definition startswith (p s : string) : bool := String.prefix p s.

(** [s.endswith(suffix)] *)
Fixpoint endswith (suffix s : string) : bool :=
  String.eqb s suffix ||
  match s with
  | EmptyString => false
  | String _ r => endswith suffix r
  end.

(** [s.split(sep, 1)] for a one-character separator. *)
Fixpoint split1 (sep : ascii) (s : string) : list string :=
  match s with
  | EmptyString => [EmptyString]
  | String c r =>
      if Ascii.eqb c sep then [EmptyString; r]
      else match split1 sep r with
           | x :: xs => String c x :: xs
           | [] => [String c EmptyString]
           end
  end.

(** The lines produced by iterating over a text file: each line keeps
    its terminating newline. *)
Fixpoint readlines (text : string) : list string :=
  match text with
  | EmptyString => []
  | String c r =>
      if Ascii.eqb c "010"%char then String c EmptyString :: readlines r
      else match readlines r with
           | l :: ls => String c l :: ls
           | [] => [String c EmptyString]
           end
  end.

(** The longest prefix of the shape [digit (["_"] digit)*], as the list
    of its digits, and the rest of the string. *)
Fixpoint digit_run (s : string) : list Z * string :=
  match s with
  | EmptyString => ([], EmptyString)
  | String c s' =>
      match digit_val c with
      | None => ([], s)
      | Some v =>
          match s' with
          | String "_" (String d _ as s1) =>
              if isdigit d
              then let (ds, r) := digit_run s1 in (v :: ds, r)
              else ([v], s')
          | _ => let (ds, r) := digit_run s' in (v :: ds, r)
          end
      end
  end.

Definition decimal (ds : list Z) : Z :=
  fold_left (fun acc d => 10 * acc + d) ds 0.

(** [["+" | "-"] rest] *)
Definition sign (s : string) : bool * string :=
  match s with
  | String "+" r => (false, r)
  | String "-" r => (true, r)
  | _ => (false, s)
  end.

Definition apply_sign (neg : bool) (n : Z) : Z := if neg then - n else n.

(** [int(s)] in base 10; [None] stands for [ValueError].  The optional
    limit of the interpreter on the number of digits is left out. *)
Definition int (s : string) : option Z :=
  let (neg, u) := sign (strip_by isblank s) in
  match digit_run u with
  | ((_ :: _) as ds, EmptyString) => Some (apply_sign neg (decimal ds))
  | _ => None
  end.

(** The binary64 number nearest to [m * 10^e] (ties to even), with the
    sign [neg]. *)
Definition round_decimal (neg : bool) (m e : Z) : spec_float :=
  match m with
  | Z0 => S754_zero neg
  | Zpos p =>
      if (0 <=? e)%Z
      then binary_round prec emax neg (p * Z.to_pos (10 ^ e))%positive 0
      else SFdiv prec emax (S754_finite neg p 0)
                 (S754_finite false (Z.to_pos (10 ^ (- e))) 0)
  | Zneg _ => S754_nan
  end.

(** The exponent part [("e" | "E") [sign] digitpart], or nothing. *)
Definition exponent (s : string) : option Z :=
  match s with
  | EmptyString => Some 0
  | String c r =>
      if Ascii.eqb c "e" || Ascii.eqb c "E"
      then let (neg, u) := sign r in
           match digit_run u with
           | ((_ :: _) as ds, EmptyString) => Some (apply_sign neg (decimal ds))
           | _ => None
           end
      else None
  end.

(** [float(s)]; [None] stands for [ValueError]. *)
Definition float (s : string) : option PrimFloat.float :=
  let (neg, u) := sign (strip_by isblank s) in
  if in_tuple (lower u) ["inf"; "infinity"]
  then Some (if neg then neg_infinity else infinity)
  else if String.eqb (lower u) "nan" then Some nan
  else
    let (ip, r1) := digit_run u in
    let (fp, r2) := match r1 with
                    | String "." r => digit_run r
                    | _ => ([], r1)
                    end in
    match (ip ++ fp)%list with
    | [] => None
    | ds =>
        match exponent r2 with
        | Some e =>
            Some (SF2Prim (round_decimal neg (decimal ds)
                                         (e - Z.of_nat (length fp))))
        | None => None
        end
    end.

End Py.

(** ** Values, dictionaries, exceptions *)

(** The values a configuration can hold: what the line-based format
    produces ([bool], [int], [float], [str]) and what a structured
    document can add ([None], lists, nested objects). *)
#[warnings="-register-all"]
Inductive value :=
| VNone
| VBool (b : bool)
| VInt (n : Z)
| VFloat (x : PrimFloat.float)
| VStr (s : string)
| VList (l : list value)
| VDict (d : list (string * value)).

(** A [dict] with [str] keys, in insertion order. *)
Abbreviation dict A := (list (string * A)).

Module Dict.
Section Ops.
Context {A : Type}.

(** [d.get(k)]: [None] when [k not in d]. *)
Fixpoint get (k : string) (d : dict A) : option A :=
  match d with
  | [] => None
  | (k', v) :: r => if String.eqb k' k then Some v else get k r
  end.

(** [k in d] *)
Definition mem (k : string) (d : dict A) : bool :=
  match get k d with Some _ => true | None => false end.

(** [d[k] = v]: an existing key keeps its position, a new key goes
    last. *)
Fixpoint set (k : string) (v : A) (d : dict A) : dict A :=
  match d with
  | [] => [(k, v)]
  | (k', v') :: r =>
      if String.eqb k' k then (k', v) :: r else (k', v') :: set k v r
  end.

(** [d.update(other)] for a mapping [other]. *)
Definition update (d other : dict A) : dict A :=
  fold_left (fun acc kv => set (fst kv) (snd kv) acc) other d.

Definition keys (d : dict A) : list string := map fst d.

(** The keys of a dictionary are pairwise distinct. *)
Definition wf (d : dict A) : Prop := NoDup (keys d).
End Ops.
End Dict.

(** The exception classes that can occur, with their place in the
    builtin hierarchy. *)
Inductive pyclass :=
| BaseException | Exception | KeyboardInterrupt
| ValueError | TypeError | AttributeError | KeyError | RuntimeError
| OSError | FileNotFoundError | PermissionError | IsADirectoryError
| UnicodeDecodeError | JSONDecodeError.

Definition class_name (c : pyclass) : string :=
  match c with
  | BaseException => "BaseException" | Exception => "Exception"
  | KeyboardInterrupt => "KeyboardInterrupt"
  | ValueError => "ValueError" | TypeError => "TypeError"
  | AttributeError => "AttributeError" | KeyError => "KeyError"
  | RuntimeError => "RuntimeError" | OSError => "OSError"
  | FileNotFoundError => "FileNotFoundError"
  | PermissionError => "PermissionError"
  | IsADirectoryError => "IsADirectoryError"
  | UnicodeDecodeError => "UnicodeDecodeError"
  | JSONDecodeError => "JSONDecodeError"
  end.

Definition base (c : pyclass) : option pyclass :=
  match c with
  | BaseException => None
  | Exception | KeyboardInterrupt => Some BaseException
  | ValueError | TypeError | AttributeError | RuntimeError | OSError => Some Exception
  | KeyError => Some Exception
  | FileNotFoundError | PermissionError | IsADirectoryError => Some OSError
  | UnicodeDecodeError | JSONDecodeError => Some ValueError
  end.

Definition pyclass_eqb (c d : pyclass) : bool :=
  String.eqb (class_name c) (class_name d).

(** [issubclass(c, d)]; the hierarchy is at most four classes deep. *)
Fixpoint issubclass_upto (n : nat) (c d : pyclass) : bool :=
  pyclass_eqb c d ||
  match n, base c with
  | S n', Some b => issubclass_upto n' b d
  | _, _ => false
  end.

Definition issubclass (c d : pyclass) : bool := issubclass_upto 4 c d.

(** The text of a formatted string literal: its literal pieces and the
    objects interpolated between them. *)
Inductive piece :=
| Lit (s : string)          (* literal text, or an interpolated [str] *)
| Show (v : value)          (* [{v}] for a value *)
| TypeOf (cls : string).    (* [{type(x)}] for an object of class [cls] *)

Abbreviation message := (list piece).

Record exn := Exn { exc_class : pyclass; exc_msg : message }.

Inductive outcome (A : Type) :=
| Return (a : A)
| Raise (e : exn).
Arguments Return {A} a.
Arguments Raise {A} e.

(** ** Sources, environment, store *)

(** What [dict.update] makes of its argument: a mapping (or an iterable
    of key/value pairs) is merged item by item; any other object makes
    [update] raise. *)
Inductive object :=
| Mapping (items : dict value)
| NotMapping (e : exn).

(** What [isinstance] tells about a source. *)
Inductive shape :=
| IsDict (items : dict value)     (* [isinstance(source, dict)] *)
| IsStr (s : string)              (* [isinstance(source, str)] *)
| IsNeither.

(** A source passed to [parse]: its class, what [isinstance] says, and,
    when it has a [to_dict] attribute, what calling it gives. *)
Record source := Source {
  type_name : string;
  kind : shape;
  to_dict : option (outcome object)
}.

Inductive event :=
| Print (m : message)
| CallToDict (s : source)
| CallTransformer (key : string) (v : value)
| CallValidator (key : string) (v : value).

(** What [open(path, 'r')] and reading the file give. *)
Inductive file :=
| Missing                      (* [FileNotFoundError] *)
| Unreadable (e : exn)         (* any other failure to open or read *)
| Text (content : string).

(** The world outside the program: the file system and the JSON decoder
    of the standard library. *)
Record env := Env {
  open_ : string -> file;
  json_load : string -> outcome object
}.

Abbreviation loc := nat (only parsing).
Abbreviation validator := (value -> bool) (only parsing).
Abbreviation transformer := (value -> value) (only parsing).

(** The attributes of a [ConfigurationParser] instance: references to
    three dictionaries. *)
Record instance := Instance {
  config : loc;
  validators : loc;
  transformers : loc
}.

Inductive cell :=
| CDict (d : dict value)
| CValidators (d : dict validator)
| CTransformers (d : dict transformer)
| CInstance (o : instance).

Abbreviation heap := (list cell).

(** ** The monad of methods: store passing, exceptions, a log of events *)

Definition M (A : Type) : Type := heap -> outcome A * heap * list event.

Definition ret {A} (a : A) : M A := fun h => (Return a, h, []).

Definition bind {A B} (m : M A) (k : A -> M B) : M B :=
  fun h =>
    match m h with
    | (Return a, h1, t1) =>
        match k a h1 with
        | (r, h2, t2) => (r, h2, t1 ++ t2)%list
        end
    | (Raise e, h1, t1) => (Raise e, h1, t1)
    end.

Declare Scope py_scope.
Delimit Scope py_scope with py.
Notation "x <- m ;; k" := (bind m (fun x => k))
  (at level 100, m at next level, right associativity) : py_scope.
Notation "m ;; k" := (bind m (fun _ => k))
  (at level 100, right associativity) : py_scope.
Local Open Scope py_scope.

Definition raise {A} (e : exn) : M A := fun h => (Raise e, h, []).

Definition emit (ev : event) : M unit := fun h => (Return tt, h, [ev]).

(** A computation that neither reads nor writes the store. *)
Definition lift {A} (r : outcome A * list event) : M A :=
  fun h => (fst r, h, snd r).

Definition alloc (c : cell) : M loc :=
  fun h => (Return (length h), (h ++ [c])%list, []).

Definition store (l : loc) (c : cell) : M unit :=
  fun h => (Return tt, <[l := c]> h, []).

Definition no_attribute (name : string) : exn :=
  Exn AttributeError [Lit "object has no attribute '"; Lit name; Lit "'"].

Definition get_instance (self : loc) : M instance :=
  fun h => match h !! self with
           | Some (CInstance o) => (Return o, h, [])
           | _ => (Raise (no_attribute "config"), h, [])
           end.

Definition get_dict (l : loc) : M (dict value) :=
  fun h => match h !! l with
           | Some (CDict d) => (Return d, h, [])
           | _ => (Raise (no_attribute "items"), h, [])
           end.

Definition get_validators (l : loc) : M (dict validator) :=
  fun h => match h !! l with
           | Some (CValidators d) => (Return d, h, [])
           | _ => (Raise (no_attribute "items"), h, [])
           end.

Definition get_transformers (l : loc) : M (dict transformer) :=
  fun h => match h !! l with
           | Some (CTransformers d) => (Return d, h, [])
           | _ => (Raise (no_attribute "items"), h, [])
           end.

(** [result.update(o)] on the dictionary stored at [result]. *)
Definition dict_update (result : loc) (o : object) : M unit :=
  match o with
  | Mapping items =>
      d <- get_dict result ;;
      store result (CDict (Dict.update d items))
  | NotMapping e => raise e
  end.

(** [result[key] = v] on the dictionary stored at [result]. *)
Definition dict_setitem (result : loc) (key : string) (v : value) : M unit :=
  d <- get_dict result ;;
  store result (CDict (Dict.set key v d)).

(** ** The class *)

Module ConfigurationParser.

(** Creating a parser from keyword defaults: allocates the instance and
    runs [__init__], which stores a copy of the defaults and two empty
    registries. *)
Definition __init__ (default_config : dict value) : M loc :=
  c <- alloc (CDict default_config) ;;
  v <- alloc (CValidators []) ;;
  t <- alloc (CTransformers []) ;;
  alloc (CInstance (Instance c v t)).

Definition add_validator (self : loc) (key : string)
    (validator_func : validator) : M unit :=
  this <- get_instance self ;;
  vs <- get_validators (validators this) ;;
  store (validators this) (CValidators (Dict.set key validator_func vs)).

Definition add_transformer (self : loc) (key : string)
    (transformer_func : transformer) : M unit :=
  this <- get_instance self ;;
  ts <- get_transformers (transformers this) ;;
  store (transformers this) (CTransformers (Dict.set key transformer_func ts)).

(** The two quote characters, ['] and the double quote. *)
Definition quotes : string := String "'" (String "034" EmptyString).

Definition _convert_value (value_str : string) : value :=
  let value_str := Py.strip_chars quotes value_str in
  if Py.in_tuple (Py.lower value_str) ["true"; "yes"; "on"] then VBool true
  else if Py.in_tuple (Py.lower value_str) ["false"; "no"; "off"] then VBool false
  else
    match (if Py.contains "." value_str
           then option_map VFloat (Py.float value_str)
           else option_map VInt (Py.int value_str)) with
    | Some v => v
    | None => VStr value_str
    end.

(** The loop over the lines of a file in the [key=value] format. *)
Fixpoint read_lines (config : dict value) (lines : list string)
    : outcome (dict value) :=
  match lines with
  | [] => Return config
  | line :: rest =>
      let line := Py.strip line in
      if negb (String.eqb line "") && negb (Py.startswith "#" line) then
        if Py.contains "=" line then
          match Py.split1 "=" line with
          | [key; value] =>
              read_lines
                (Dict.set (Py.strip key) (_convert_value (Py.strip value)) config)
                rest
          | _ => Raise (Exn ValueError [Lit "not enough values to unpack"])
          end
        else read_lines config rest
      else read_lines config rest
  end.

(** The body of the [try] block of [_load_from_file]. *)
Definition read_file (E : env) (file_path : string) : outcome object :=
  match open_ E file_path with
  | Missing =>
      Raise (Exn FileNotFoundError
                 [Lit "No such file or directory: "; Lit file_path])
  | Unreadable e => Raise e
  | Text content =>
      if Py.endswith ".json" file_path then json_load E content
      else
        match read_lines [] (Py.readlines content) with
        | Return config => Return (Mapping config)
        | Raise e => Raise e
        end
  end.

Definition _load_from_file (E : env) (file_path : string)
    : outcome object * list event :=
  match read_file E file_path with
  | Return o => (Return o, [])
  | Raise e =>
      if issubclass (exc_class e) FileNotFoundError then
        (Return (Mapping []),
         [Print [Lit "Warning: Config file "; Lit file_path;
                 Lit " not found. Skipping."]])
      else if issubclass (exc_class e) Exception then
        (Return (Mapping []),
         [Print ([Lit "Error loading config from "; Lit file_path; Lit ": "]
                 ++ exc_msg e)%list])
      else (Raise e, [])
  end.

Definition unsupported (s : source) : exn :=
  Exn ValueError [Lit "Unsupported config source type: "; TypeOf (type_name s)].

(** The body of the loop over [sources]. *)
Definition merge_source (E : env) (result : loc) (s : source) : M unit :=
  match kind s with
  | IsDict items => dict_update result (Mapping items)
  | IsStr file_path =>
      file_config <- lift (_load_from_file E file_path) ;;
      dict_update result file_config
  | IsNeither =>
      match to_dict s with
      | Some call =>
          o <- (emit (CallToDict s) ;; lift (call, [])) ;;
          dict_update result o
      | None => raise (unsupported s)
      end
  end.

(** [for source in sources: ...] *)
Fixpoint process_sources (E : env) (result : loc) (sources : list source)
    : M unit :=
  match sources with
  | [] => ret tt
  | s :: rest => merge_source E result s ;; process_sources E result rest
  end.

(** [for key, value in result.items(): ...], from the [i]-th item on,
    for at most [n] items; the items are read from the live dictionary. *)
Fixpoint transform_items (self result : loc) (i n : nat) : M unit :=
  match n with
  | O => ret tt
  | S n' =>
      d <- get_dict result ;;
      match d !! i with
      | None => ret tt
      | Some (key, v) =>
          this <- get_instance self ;;
          ts <- get_transformers (transformers this) ;;
          (if Dict.mem key ts then
             match Dict.get key ts with
             | Some f =>
                 emit (CallTransformer key v) ;;
                 dict_setitem result key (f v)
             | None => raise (Exn KeyError [Lit key])
             end
           else ret tt) ;;
          transform_items self result (S i) n'
      end
  end.

Definition apply_transformations (self result : loc) : M unit :=
  d <- get_dict result ;;
  transform_items self result 0 (length d).

Definition validation_failed (key : string) (v : value) : exn :=
  Exn ValueError [Lit "Validation failed for config key '"; Lit key;
                  Lit "': "; Show v].

(** [for key, validator in self.validators.items(): ...] *)
Fixpoint validate_items (config : loc) (items : dict validator) : M unit :=
  match items with
  | [] => ret tt
  | (key, validator_func) :: rest =>
      d <- get_dict config ;;
      match Dict.get key d with
      | Some v =>
          emit (CallValidator key v) ;;
          if validator_func v then validate_items config rest
          else raise (validation_failed key v)
      | None => validate_items config rest
      end
  end.

Definition _validate_config (self config : loc) : M unit :=
  this <- get_instance self ;;
  vs <- get_validators (validators this) ;;
  validate_items config vs.

Definition parse (E : env) (self : loc) (sources : list source)
    (overrides : dict value) : M loc :=
  (* Start with current config *)
  this <- get_instance self ;;
  base <- get_dict (config this) ;;
  result <- alloc (CDict base) ;;
  (* Process each source *)
  process_sources E result sources ;;
  (* Apply overrides *)
  dict_update result (Mapping overrides) ;;
  (* Apply transformations *)
  apply_transformations self result ;;
  (* Validate *)
  _validate_config self result ;;
  ret result.

End ConfigurationParser.

Import ConfigurationParser.

(** ** Observation points and functional reading of [parse] *)

(** [parse] up to and including the merge of [overrides]: the merged
    result, before any transformer runs. *)
Definition collected (E : env) (self : loc) (sources : list source)
    (overrides : dict value) : M loc :=
  this <- get_instance self ;;
  base <- get_dict (config this) ;;
  result <- alloc (CDict base) ;;
  process_sources E result sources ;;
  dict_update result (Mapping overrides) ;;
  ret result.

(** [parse] up to and including the transformations: the result that is
    handed to [_validate_config]. *)
Definition prepared (E : env) (self : loc) (sources : list source)
    (overrides : dict value) : M loc :=
  this <- get_instance self ;;
  base <- get_dict (config this) ;;
  result <- alloc (CDict base) ;;
  process_sources E result sources ;;
  dict_update result (Mapping overrides) ;;
  apply_transformations self result ;;
  ret result.

(** The mapping that a finished call returned, if it returned one. *)
Definition returned (x : outcome loc * heap * list event) : option (dict value) :=
  match x with
  | (Return l, h, _) =>
      match h !! l with
      | Some (CDict d) => Some d
      | _ => None
      end
  | (Raise _, _, _) => None
  end.

(** The exception that a finished call raised, if it raised one. *)
Definition raised {A} (x : outcome A * heap * list event) : option exn :=
  match x with
  | (Raise e, _, _) => Some e
  | (Return _, _, _) => None
  end.

(** The store [h] holds at [self] a parser whose attributes are the
    dictionaries [base], [vs] and [ts]. *)
Definition parser_at (h : heap) (self : loc) (base : dict value)
    (vs : dict validator) (ts : dict transformer) : Prop :=
  exists this,
    h !! self = Some (CInstance this) /\
    h !! config this = Some (CDict base) /\
    h !! validators this = Some (CValidators vs) /\
    h !! transformers this = Some (CTransformers ts).

(** What the dispatch on one source hands to [result.update], and the
    events on the way. *)
Definition contribution (E : env) (s : source) : outcome object * list event :=
  match kind s with
  | IsDict items => (Return (Mapping items), [])
  | IsStr file_path => _load_from_file E file_path
  | IsNeither =>
      match to_dict s with
      | Some call => (call, [CallToDict s])
      | None => (Raise (unsupported s), [])
      end
  end.

(** The items that a source merges into the result, when its processing
    completes. *)
Definition loads (E : env) (s : source) : option (dict value) :=
  match contribution E s with
  | (Return (Mapping items), _) => Some items
  | _ => None
  end.

(** The loop over the sources as a fold over the dictionary. *)
Fixpoint merged (E : env) (d : dict value) (sources : list source)
    : outcome unit * dict value * list event :=
  match sources with
  | [] => (Return tt, d, [])
  | s :: rest =>
      match contribution E s with
      | (Return (Mapping items), t) =>
          match merged E (Dict.update d items) rest with
          | (r, d', t') => (r, d', t ++ t')%list
          end
      | (Return (NotMapping e), t) => (Raise e, d, t)
      | (Raise e, t) => (Raise e, d, t)
      end
  end.

(** The value of [key] after the transformations. *)
Definition transform (ts : dict transformer) (key : string) (v : value) : value :=
  match Dict.get key ts with
  | Some f => f v
  | None => v
  end.

Definition transformed (ts : dict transformer) (d : dict value) : dict value :=
  map (fun kv => (fst kv, transform ts (fst kv) (snd kv))) d.

Definition transformer_calls (ts : dict transformer) (d : dict value) : list event :=
  flat_map (fun kv => if Dict.mem (fst kv) ts
                      then [CallTransformer (fst kv) (snd kv)] else []) d.

(** The validation loop as a function of the registry and the result. *)
Fixpoint checked (items : dict validator) (d : dict value)
    : outcome unit * list event :=
  match items with
  | [] => (Return tt, [])
  | (key, f) :: rest =>
      match Dict.get key d with
      | Some v =>
          if f v
          then match checked rest d with
               | (r, t) => (r, CallValidator key v :: t)
               end
          else (Raise (validation_failed key v), [CallValidator key v])
      | None => checked rest d
      end
  end.

(** The validators of a registry that are called on a result that they
    all accept. *)
Definition validator_calls (items : dict validator) (d : dict value) : list event :=
  flat_map (fun kf => match Dict.get (fst kf) d with
                      | Some v => [CallValidator (fst kf) v]
                      | None => []
                      end) items.

(** A source that is a plain [dict] literal. *)
Definition inline (items : dict value) : source :=
  Source "dict" (IsDict items) None.

(** A source that is a plain [str]. *)
Definition path_source (file_path : string) : source :=
  Source "str" (IsStr file_path) None.

(** A boolean check of [Dict.wf]. *)
Fixpoint distinct (ks : list string) : bool :=
  match ks with
  | [] => true
  | k :: r => negb (existsb (String.eqb k) r) && distinct r
  end.

(** The failures of a file source that [_load_from_file] absorbs: the
    file is missing, reading it fails with an [OSError], or it is a
    [.json] file that the decoder rejects. *)
Inductive recoverable (E : env) (file_path : string) : Prop :=
| missing_file :
    open_ E file_path = Missing -> recoverable E file_path
| io_failure e :
    open_ E file_path = Unreadable e ->
    issubclass (exc_class e) OSError = true ->
    recoverable E file_path
| malformed_json content e :
    Py.endswith ".json" file_path = true ->
    open_ E file_path = Text content ->
    json_load E content = Raise e ->
    exc_class e = JSONDecodeError ->
    recoverable E file_path.

(** *** The coercion rule as the specification words it *)

(** [s] without its last character, when that character is [q]. *)
Fixpoint without_last (q : ascii) (s : string) : option string :=
  match s with
  | EmptyString => None
  | String c EmptyString => if Ascii.eqb c q then Some EmptyString else None
  | String c r =>
      match without_last q r with
      | Some m => Some (String c m)
      | None => None
      end
  end.

(** "Strip one layer of surrounding single or double quotes if present". *)
Definition strip_one_layer (s : string) : string :=
  match s with
  | String q r =>
      if Py.contains q quotes
      then match without_last q r with
           | Some m => m
           | None => s
           end
      else s
  | EmptyString => EmptyString
  end.

(** Steps 2 to 4 of the rule, on a text whose quotes are already
    stripped. *)
Definition typed (v : string) : value :=
  if Py.in_tuple (Py.lower v) ["true"; "yes"; "on"] then VBool true
  else if Py.in_tuple (Py.lower v) ["false"; "no"; "off"] then VBool false
  else if Py.contains "." v then
    match Py.float v with
    | Some x => VFloat x
    | None => VStr v
    end
  else
    match Py.int v with
    | Some n => VInt n
    | None => VStr v
    end.

(** The first character of [s], if any, is not one that [p] strips. *)
Definition head_kept (p : ascii -> bool) (s : string) : Prop :=
  match s with
  | String c _ => p c = false
  | EmptyString => True
  end.

(** Every character of [s] is a quote character. *)
Definition only_quotes (s : string) : bool :=
  String.eqb (Py.lstrip_by (fun c => Py.contains c quotes) s) EmptyString.

(** [s] neither starts nor ends with a quote character. *)
Definition unquoted (s : string) : bool :=
  String.eqb (Py.strip_chars quotes s) s.

(** *** The parser of the module's demonstration *)

(** [lambda x: isinstance(x, int) and 1 <= x <= 65535]; a [bool] is an
    [int]. *)
Definition port_ok : validator :=
  fun x =>
    match x with
    | VInt n => (1 <=? n)%Z && (n <=? 65535)%Z
    | VBool b => b
    | _ => false
    end.

(** [lambda x: isinstance(x, int) and x > 0] *)
Definition max_connections_ok : validator :=
  fun x =>
    match x with
    | VInt n => (0 <? n)%Z
    | VBool b => b
    | _ => false
    end.

(** [lambda x: x.lower().strip()], on the values that have these
    methods. *)
Definition lower_strip : transformer :=
  fun x =>
    match x with
    | VStr s => VStr (Py.strip (Py.lower s))
    | _ => x
    end.

Definition demo_defaults : dict value :=
  [("debug", VBool false); ("port", VInt 8000); ("host", VStr "localhost");
   ("max_connections", VInt 100)].

Definition demo : M loc :=
  parser <- __init__ demo_defaults ;;
  add_validator parser "port" port_ok ;;
  add_validator parser "max_connections" max_connections_ok ;;
  add_transformer parser "host" lower_strip ;;
  ret parser.

Definition demo_heap : heap := snd (fst (demo [])).

Definition demo_self : loc := 3%nat.

Definition sample_config_content : string :=
  "# Sample configuration
debug=true
port=9000
host=0.0.0.0
max_connections=500
api_key=secret123
".

(** What the sample file holds once loaded. *)
Definition sample_items : dict value :=
  [("debug", VBool true); ("port", VInt 9000); ("host", VStr "0.0.0.0");
   ("max_connections", VInt 500); ("api_key", VStr "secret123")].

(** A file system with the sample file of the demonstration, a [.json]
    file that is not valid JSON, and a file that cannot be read. *)
Definition demo_env : env :=
  Env (fun file_path =>
         if String.eqb file_path "sample_config.txt" then Text sample_config_content
         else if String.eqb file_path "broken.json" then Text "{"
         else if String.eqb file_path "locked.txt"
              then Unreadable (Exn PermissionError [Lit "Permission denied"])
         else Missing)
      (fun content =>
         if String.eqb content "{}" then Return (Mapping [])
         else Raise (Exn JSONDecodeError [Lit "Expecting property name"])).

(** ** Further observations on the class *)

(** The value of [k] in the first of the [layers] that binds it. *)
Fixpoint pick (k : string) (layers : list (dict value)) : option value :=
  match layers with
  | [] => None
  | d :: rest =>
      match Dict.get k d with
      | Some v => Some v
      | None => pick k rest
      end
  end.

(** [str(n)] for an integer. *)
Definition str_int (n : Z) : string :=
  DecimalString.NilZero.string_of_int (Z.to_int n).

(** The digits of a decimal numeral, most significant first. *)
Fixpoint digits_of (d : Decimal.uint) : list Z :=
  match d with
  | Decimal.Nil => []
  | Decimal.D0 r => 0%Z :: digits_of r
  | Decimal.D1 r => 1%Z :: digits_of r
  | Decimal.D2 r => 2%Z :: digits_of r
  | Decimal.D3 r => 3%Z :: digits_of r
  | Decimal.D4 r => 4%Z :: digits_of r
  | Decimal.D5 r => 5%Z :: digits_of r
  | Decimal.D6 r => 6%Z :: digits_of r
  | Decimal.D7 r => 7%Z :: digits_of r
  | Decimal.D8 r => 8%Z :: digits_of r
  | Decimal.D9 r => 9%Z :: digits_of r
  end.

(** A transformer that caps a port number, and the parser of the
    demonstration once it is registered for port. *)
Definition clamp_port : transformer :=
  fun x =>
    match x with
    | VInt n => VInt (Z.min n 65535)
    | _ => x
    end.

Definition clamped_heap : heap :=
  snd (fst (add_transformer demo_self "port" clamp_port demo_heap)).

(** Every character of [s] satisfies [q]. *)
Fixpoint string_forall (q : ascii -> bool) (s : string) : bool :=
  match s with
  | EmptyString => true
  | String c r => q c && string_forall q r
  end.

(** The characters of the decimal text of an integer. *)
Definition is_int_char (c : ascii) : bool :=
  Py.isdigit c || Ascii.eqb c "-".

(** ** Other functions of the module *)

(** The truth value of an object, as [if] and [not] take it. *)
Definition truthy (v : value) : bool :=
  match v with
  | VNone => false
  | VBool b => b
  | VInt n => negb (n =? 0)%Z
  | VFloat x => negb (PrimFloat.eqb x 0%float)
  | VStr s => negb (String.eqb s "")
  | VList l => match l with [] => false | _ => true end
  | VDict d => match d with [] => false | _ => true end
  end.

(** [user_data.get(key)] taken as a condition; a missing key gives
    [None], which is false. *)
Definition get_truthy (key : string) (user_data : dict value) : bool :=
  match Dict.get key user_data with
  | Some v => truthy v
  | None => false
  end.

Definition validate_user_data (user_data : dict value) : outcome bool :=
  if negb (get_truthy "email" user_data)
  then Raise (Exn ValueError [Lit "Email required"])
  else if negb (get_truthy "name" user_data)
  then Raise (Exn ValueError [Lit "Name required"])
  else Return true.

(** [d.setdefault(key, default)], for its effect on [d]. *)
Definition setdefault (key : string) (default : value) (d : dict value)
    : dict value :=
  if Dict.mem key d then d else Dict.set key default d.

(** The set [{'name', 'email'}]. *)
Definition required_fields : list string := ["name"; "email"].

Definition defaults : dict value :=
  [("active", VBool true); ("role", VStr "user"); ("created_at", VNone)].

(** What [create_user] does: it returns the completed [user_info], or
    raises the [ValueError] whose message shows the set of the required
    fields that are missing. *)
Inductive created :=
| User (user_info : dict value)
| MissingRequired (missing : list string).

Definition create_user (user_info : dict value) : created :=
  if negb (forallb (fun f => Dict.mem f user_info) required_fields)
  then MissingRequired
         (List.filter (fun f => negb (Dict.mem f user_info)) required_fields)
  else User (fold_left (fun d kv => setdefault (fst kv) (snd kv) d)
                       defaults user_info).

Section Formatting.
(** [str] of the values whose text is not modelled: floats, lists and
    nested mappings. *)
Variable str_other : value -> string.

(** [str(v)] *)
Definition py_str (v : value) : string :=
  match v with
  | VNone => "None"
  | VBool true => "True"
  | VBool false => "False"
  | VInt n => str_int n
  | VStr s => s
  | _ => str_other v
  end.

(** [sep.join(parts)] *)
Fixpoint join (sep : string) (parts : list string) : string :=
  match parts with
  | [] => EmptyString
  | x :: rest =>
      match rest with
      | [] => x
      | _ => (x ++ sep ++ join sep rest)%string
      end
  end.

(** [v is not None] *)
Definition is_not_None (v : value) : bool :=
  match v with
  | VNone => false
  | _ => true
  end.

(** The query string: [k=v] for every parameter that is not [None],
    joined by [&]. *)
Definition query_string (params : dict value) : string :=
  join "&" (map (fun kv => (fst kv ++ "=" ++ py_str (snd kv))%string)
                (List.filter (fun kv => is_not_None (snd kv)) params)).

Definition flexible_api_call (endpoint : string) (path_parts : list value)
    (method : value) (params : dict value) : dict value :=
  let url_parts :=
    Py.rstrip_by (fun c => Py.contains c "/") endpoint :: map py_str path_parts in
  let full_url := join "/" url_parts in
  let query_params := query_string params in
  let full_url :=
    if negb (String.eqb query_params "")
    then (full_url ++ "?" ++ query_params)%string
    else full_url in
  [("method", method); ("url", VStr full_url); ("params", VDict params)].
End Formatting.

(** ** Lemmas on dictionaries *)

Local Open Scope nat_scope.

Section DictLemmas.
Context {A : Type}.
Implicit Types (d o : dict A) (k : string) (v : A).

Lemma get_set_eq k v d : Dict.get k (Dict.set k v d) = Some v.
Proof.
  induction d as [|[k' v'] d IH]; simpl.
  - now rewrite String.eqb_refl.
  - destruct (String.eqb_spec k' k) as [->|Hne]; simpl.
    + now rewrite String.eqb_refl.
    + destruct (String.eqb_spec k' k); [contradiction|assumption].
Qed.

Lemma get_set_ne k k' v d : k <> k' -> Dict.get k' (Dict.set k v d) = Dict.get k' d.
Proof.
  intros Hne. induction d as [|[k1 v1] d IH]; simpl.
  - destruct (String.eqb_spec k k'); [contradiction|reflexivity].
  - destruct (String.eqb_spec k1 k) as [->|H1]; simpl.
    + destruct (String.eqb_spec k k'); [contradiction|reflexivity].
    + destruct (String.eqb_spec k1 k'); [reflexivity|assumption].
Qed.

Lemma get_None_keys k d : Dict.get k d = None <-> ~ In k (Dict.keys d).
Proof.
  induction d as [|[k1 v1] d IH]; simpl.
  - tauto.
  - destruct (String.eqb_spec k1 k) as [->|H1].
    + split; [discriminate|tauto].
    + rewrite IH. tauto.
Qed.

Lemma get_Some_In k v d : Dict.get k d = Some v -> In (k, v) d.
Proof.
  induction d as [|[k1 v1] d IH]; simpl; [discriminate|].
  destruct (String.eqb_spec k1 k) as [->|H1].
  - intros [= ->]. now left.
  - intros H. right. auto.
Qed.

Lemma In_get_wf k v d : Dict.wf d -> In (k, v) d -> Dict.get k d = Some v.
Proof.
  unfold Dict.wf. induction d as [|[k1 v1] d IH]; simpl; [tauto|].
  intros Hwf [[= -> ->]|Hin].
  - now rewrite String.eqb_refl.
  - apply NoDup_cons in Hwf as [Hnotin Hwf].
    destruct (String.eqb_spec k1 k) as [->|H1].
    + exfalso. apply Hnotin, list_elem_of_In. change (In k (map fst d)).
      apply in_map_iff. now exists (k, v).
    + auto.
Qed.

Lemma keys_set k v d :
  Dict.keys (Dict.set k v d) =
  if Dict.mem k d then Dict.keys d else (Dict.keys d ++ [k])%list.
Proof.
  unfold Dict.mem. induction d as [|[k1 v1] d IH]; simpl; [reflexivity|].
  destruct (String.eqb_spec k1 k) as [->|H1]; simpl; [reflexivity|].
  rewrite IH. now destruct (Dict.get k d).
Qed.

Lemma wf_set k v d : Dict.wf d -> Dict.wf (Dict.set k v d).
Proof.
  unfold Dict.wf. rewrite keys_set. unfold Dict.mem.
  destruct (Dict.get k d) eqn:Hg; [trivial|].
  intros Hwf. apply NoDup_app. split; [assumption|]. split.
  - intros x Hx Hx'. apply list_elem_of_In in Hx, Hx'. simpl in Hx'.
    destruct Hx' as [<-|[]]. now apply get_None_keys in Hg.
  - apply NoDup_singleton.
Qed.

Lemma update_cons d k v o :
  Dict.update d ((k, v) :: o) = Dict.update (Dict.set k v d) o.
Proof. reflexivity. Qed.

Lemma wf_update d o : Dict.wf d -> Dict.wf (Dict.update d o).
Proof.
  revert d. induction o as [|[k v] o IH]; intros d Hwf; [assumption|].
  rewrite update_cons. apply IH, wf_set, Hwf.
Qed.

Lemma get_update k d o :
  Dict.wf o ->
  Dict.get k (Dict.update d o) =
  match Dict.get k o with Some v => Some v | None => Dict.get k d end.
Proof.
  revert d. induction o as [|[k1 v1] o IH]; intros d Hwf; [reflexivity|].
  rewrite update_cons. apply NoDup_cons in Hwf as [Hnotin Hwf].
  rewrite IH by assumption. simpl.
  destruct (String.eqb_spec k1 k) as [->|H1].
  - assert (Dict.get k o = None) as ->.
    { apply get_None_keys. intros Hin. apply Hnotin, list_elem_of_In, Hin. }
    apply get_set_eq.
  - destruct (Dict.get k o); [reflexivity|]. now apply get_set_ne.
Qed.

Lemma get_update_None k d o :
  Dict.get k o = None -> Dict.get k (Dict.update d o) = Dict.get k d.
Proof.
  revert d. induction o as [|[k1 v1] o IH]; intros d Hg; [reflexivity|].
  rewrite update_cons. simpl in Hg.
  destruct (String.eqb_spec k1 k) as [->|H1]; [discriminate|].
  rewrite IH by assumption. now apply get_set_ne.
Qed.

Lemma set_at k v v' d i :
  Dict.wf d -> d !! i = Some (k, v) -> Dict.set k v' d = <[i := (k, v')]> d.
Proof.
  unfold Dict.wf. revert i. induction d as [|[k1 v1] d IH]; intros i Hwf Hi.
  - discriminate.
  - apply NoDup_cons in Hwf as [Hnotin Hwf]. destruct i as [|i]; simpl in *.
    + injection Hi as -> ->. now rewrite String.eqb_refl.
    + destruct (String.eqb_spec k1 k) as [->|H1].
      * exfalso. apply Hnotin, list_elem_of_In. change (In k (map fst d)).
        apply in_map_iff. exists (k, v). split; [reflexivity|].
        apply list_elem_of_In. eapply list_elem_of_lookup_2, Hi.
      * f_equal. now apply IH.
Qed.
End DictLemmas.

(** ** The methods in terms of their functional reading *)

Lemma parser_at_extend h self base vs ts ext :
  parser_at h self base vs ts -> parser_at (h ++ ext) self base vs ts.
Proof.
  intros (this & H1 & H2 & H3 & H4). exists this.
  repeat split; now apply lookup_app_l_Some.
Qed.

Lemma dict_update_run result items h d :
  h !! result = Some (CDict d) ->
  dict_update result (Mapping items) h =
  (Return tt, <[result := CDict (Dict.update d items)]> h, []).
Proof.
  intros Hr. unfold dict_update, bind, get_dict, store. now rewrite Hr.
Qed.

Lemma merge_source_run E result s h d :
  h !! result = Some (CDict d) ->
  merge_source E result s h =
  match contribution E s with
  | (Return (Mapping items), t) =>
      (Return tt, <[result := CDict (Dict.update d items)]> h, t)
  | (Return (NotMapping e), t) => (Raise e, h, t)
  | (Raise e, t) => (Raise e, h, t)
  end.
Proof.
  intros Hr. unfold merge_source, contribution.
  destruct (kind s) as [items|path|].
  - now apply dict_update_run.
  - unfold bind, lift. destruct (_load_from_file E path) as [[[items|e]|e] t]; cbn [fst snd].
    + rewrite (dict_update_run _ _ _ d Hr). now rewrite app_nil_r.
    + unfold dict_update, raise. now rewrite app_nil_r.
    + reflexivity.
  - destruct (to_dict s) as [[[items|e]|e]|]; unfold bind, emit, lift, raise;
      cbn [fst snd app].
    + now rewrite (dict_update_run _ _ _ d Hr).
    + reflexivity.
    + reflexivity.
    + reflexivity.
Qed.

Lemma process_sources_run E result sources : forall h d,
  h !! result = Some (CDict d) ->
  process_sources E result sources h =
  match merged E d sources with
  | (r, d', t) => (r, <[result := CDict d']> h, t)
  end.
Proof.
  induction sources as [|s rest IH]; intros h d Hr; simpl.
  - unfold ret. now rewrite list_insert_id.
  - unfold bind. rewrite (merge_source_run _ _ _ _ d Hr).
    destruct (contribution E s) as [[[items|e]|e] t].
    + rewrite (IH _ (Dict.update d items)).
      * destruct (merged E (Dict.update d items) rest) as [[r d'] t'].
        now rewrite list_insert_insert_eq.
      * apply list_lookup_insert_eq. eapply lookup_lt_Some, Hr.
    + now rewrite list_insert_id.
    + now rewrite list_insert_id.
Qed.

Lemma transform_items_run self result this ts todo : forall done h,
  h !! self = Some (CInstance this) ->
  h !! transformers this = Some (CTransformers ts) ->
  h !! result = Some (CDict (done ++ todo)) ->
  result <> self -> result <> transformers this ->
  Dict.wf (done ++ todo) ->
  transform_items self result (length done) (length todo) h =
  (Return tt, <[result := CDict (done ++ transformed ts todo)]> h,
   transformer_calls ts todo).
Proof.
  induction todo as [|[k v] todo IH]; intros done h Hs Ht Hr Hne1 Hne2 Hwf.
  - simpl. unfold ret. rewrite list_insert_id; [reflexivity|assumption].
  - assert (Hi : (done ++ (k, v) :: todo) !! length done = Some (k, v))
      by now apply list_lookup_middle.
    assert (Hlt : result < length h) by (eapply lookup_lt_Some, Hr).
    cbn [transform_items length]. unfold bind at 1. unfold get_dict at 1.
    rewrite Hr, Hi. unfold bind at 1. unfold get_instance at 1. rewrite Hs.
    unfold bind at 1. unfold get_transformers at 1. rewrite Ht.
    unfold bind at 1.
    set (v' := transform ts k v).
    assert (Hstep :
      (if Dict.mem k ts
       then match Dict.get k ts with
            | Some f => emit (CallTransformer k v);; dict_setitem result k (f v)
            | None => raise (Exn KeyError [Lit k])
            end
       else ret tt) h =
      (Return tt, <[result := CDict ((done ++ [(k, v')]) ++ todo)]> h,
       if Dict.mem k ts then [CallTransformer k v] else [])).
    { subst v'. unfold transform, Dict.mem.
      destruct (Dict.get k ts) as [f|].
      - unfold dict_setitem, bind, emit, get_dict, store. rewrite Hr. simpl.
        rewrite (set_at k v (f v) _ (length done) Hwf Hi).
        rewrite insert_app_r_alt by lia. rewrite Nat.sub_diag. simpl.
        now rewrite <- app_assoc.
      - unfold ret. rewrite <- app_assoc. simpl.
        rewrite list_insert_id; [reflexivity|assumption]. }
    rewrite Hstep. clear Hstep.
    replace (S (length done)) with (length (done ++ [(k, v')]))
      by (rewrite length_app; simpl; lia).
    rewrite IH.
    + rewrite list_insert_insert_eq. simpl. rewrite <- app_assoc. simpl.
      unfold transformer_calls at 2. simpl. reflexivity.
    + rewrite list_lookup_insert_ne; auto.
    + rewrite list_lookup_insert_ne; auto.
    + now apply list_lookup_insert_eq.
    + assumption.
    + assumption.
    + unfold Dict.wf, Dict.keys in *. rewrite <- app_assoc. simpl.
      rewrite !map_app in *. simpl in *. assumption.
Qed.

Lemma apply_transformations_run self result this ts h d :
  h !! self = Some (CInstance this) ->
  h !! transformers this = Some (CTransformers ts) ->
  h !! result = Some (CDict d) ->
  result <> self -> result <> transformers this ->
  Dict.wf d ->
  apply_transformations self result h =
  (Return tt, <[result := CDict (transformed ts d)]> h, transformer_calls ts d).
Proof.
  intros Hs Ht Hr Hne1 Hne2 Hwf.
  unfold apply_transformations, bind. unfold get_dict at 1. rewrite Hr.
  now rewrite (transform_items_run self result this ts d []).
Qed.

Lemma validate_items_run config items h d :
  h !! config = Some (CDict d) ->
  validate_items config items h = (fst (checked items d), h, snd (checked items d)).
Proof.
  intros Hc. induction items as [|[k f] items IH]; simpl; [reflexivity|].
  unfold bind at 1. unfold get_dict at 1. rewrite Hc.
  destruct (Dict.get k d) as [v|]; [|now rewrite IH].
  unfold bind, emit. destruct (f v).
  - rewrite IH. now destruct (checked items d).
  - reflexivity.
Qed.

Lemma _validate_config_run self config this vs h d :
  h !! self = Some (CInstance this) ->
  h !! validators this = Some (CValidators vs) ->
  h !! config = Some (CDict d) ->
  _validate_config self config h = (fst (checked vs d), h, snd (checked vs d)).
Proof.
  intros Hs Hv Hc. unfold _validate_config, bind.
  unfold get_instance. rewrite Hs. unfold get_validators. rewrite Hv.
  now rewrite (validate_items_run _ _ _ d Hc).
Qed.

Lemma insert_fresh (h : heap) (c c' : cell) :
  <[length h := c']> (h ++ [c]) = h ++ [c'].
Proof. rewrite insert_app_r_alt by lia. now rewrite Nat.sub_diag. Qed.

Lemma lookup_fresh (h : heap) (c : cell) : (h ++ [c]) !! length h = Some c.
Proof. now apply list_lookup_middle. Qed.

Lemma merged_wf E sources : forall d r d' t,
  merged E d sources = (r, d', t) -> Dict.wf d -> Dict.wf d'.
Proof.
  induction sources as [|s rest IH]; simpl; intros d r d' t Hm Hwf.
  - now injection Hm as _ <- _.
  - destruct (contribution E s) as [[[items|e]|e] t0].
    + destruct (merged E (Dict.update d items) rest) as [[r1 d1] t1] eqn:H1.
      injection Hm as _ <- _. eapply IH; [exact H1|]. now apply wf_update.
    + now injection Hm as _ <- _.
    + now injection Hm as _ <- _.
Qed.

Lemma collected_run E self sources overrides h base vs ts :
  parser_at h self base vs ts ->
  collected E self sources overrides h =
  match merged E base sources with
  | (Return _, d, t) =>
      (Return (length h), h ++ [CDict (Dict.update d overrides)], t)
  | (Raise e, d, t) => (Raise e, h ++ [CDict d], t)
  end.
Proof.
  intros (this & Hs & Hc & Hv & Ht).
  unfold collected, bind. unfold get_instance. rewrite Hs.
  unfold get_dict at 1. rewrite Hc. unfold alloc.
  rewrite (process_sources_run _ _ _ _ base (lookup_fresh h _)).
  destruct (merged E base sources) as [[[[]|e] d] t]; rewrite insert_fresh.
  - rewrite (dict_update_run _ _ _ d (lookup_fresh h _)). unfold ret.
    rewrite insert_fresh. simpl. now rewrite app_nil_r.
  - reflexivity.
Qed.

Lemma prepared_run E self sources overrides h base vs ts :
  parser_at h self base vs ts -> Dict.wf base ->
  prepared E self sources overrides h =
  match merged E base sources with
  | (Return _, d, t) =>
      (Return (length h),
       h ++ [CDict (transformed ts (Dict.update d overrides))],
       t ++ transformer_calls ts (Dict.update d overrides))
  | (Raise e, d, t) => (Raise e, h ++ [CDict d], t)
  end.
Proof.
  intros (this & Hs & Hc & Hv & Ht) Hwf.
  unfold prepared, bind. unfold get_instance. rewrite Hs.
  unfold get_dict at 1. rewrite Hc. unfold alloc.
  rewrite (process_sources_run _ _ _ _ base (lookup_fresh h _)).
  destruct (merged E base sources) as [[[[]|e] d] t] eqn:Hm; rewrite insert_fresh.
  - rewrite (dict_update_run _ _ _ d (lookup_fresh h _)). rewrite insert_fresh.
    rewrite (apply_transformations_run self (length h) this ts _
               (Dict.update d overrides)).
    + rewrite insert_fresh. unfold ret. simpl. now rewrite app_nil_r.
    + now apply lookup_app_l_Some.
    + now apply lookup_app_l_Some.
    + apply lookup_fresh.
    + apply lookup_lt_Some in Hs. lia.
    + apply lookup_lt_Some in Ht. lia.
    + apply wf_update. eapply merged_wf; eauto.
  - reflexivity.
Qed.

Lemma parse_run E self sources overrides h base vs ts :
  parser_at h self base vs ts -> Dict.wf base ->
  parse E self sources overrides h =
  match merged E base sources with
  | (Return _, d, t) =>
      let d2 := Dict.update d overrides in
      let d3 := transformed ts d2 in
      (match fst (checked vs d3) with
       | Return _ => Return (length h)
       | Raise e => Raise e
       end,
       h ++ [CDict d3],
       t ++ transformer_calls ts d2 ++ snd (checked vs d3))
  | (Raise e, d, t) => (Raise e, h ++ [CDict d], t)
  end.
Proof.
  intros Hp Hwf.
  pose proof (prepared_run E self sources overrides h base vs ts Hp Hwf) as Hprep.
  destruct Hp as (this & Hs & Hc & Hv & Ht).
  unfold prepared, bind in Hprep. unfold parse, bind.
  destruct (merged E base sources) as [[[[]|e] d] t];
    destruct (get_instance self h) as [[[o|e0] h0] t0]; try exact Hprep; try discriminate Hprep;
    destruct (get_dict (config o) h0) as [[[b|e1] h1] t1]; try exact Hprep; try discriminate Hprep;
    destruct (alloc (CDict b) h1) as [[[result|e2] h2] t2]; try exact Hprep; try discriminate Hprep;
    destruct (process_sources E result sources h2) as [[[[]|e3] h3] t3];
    try exact Hprep; try discriminate Hprep;
    destruct (dict_update result (Mapping overrides) h3) as [[[[]|e4] h4] t4];
    try exact Hprep; try discriminate Hprep;
    destruct (apply_transformations self result h4) as [[[[]|e5] h5] t5];
    try exact Hprep; try discriminate Hprep; try discriminate.
  unfold ret in *.
  injection Hprep as -> -> Ht5. cbn zeta.
  rewrite (_validate_config_run self (length h) this vs _
             (transformed ts (Dict.update d overrides))).
  - destruct (checked vs (transformed ts (Dict.update d overrides))) as [[[]|e] tv];
      cbn [fst snd].
    + rewrite ?app_nil_r in *. rewrite !app_assoc in *. now rewrite Ht5.
    + rewrite ?app_nil_r in *. rewrite !app_assoc in *. now rewrite Ht5.
  - now apply lookup_app_l_Some.
  - now apply lookup_app_l_Some.
  - apply lookup_fresh.
Qed.
(** ** Lemmas on the string builtins *)

Section Strip.
Variable p : ascii -> bool.

Lemma lstrip_split s :
  exists pre, s = (pre ++ Py.lstrip_by p s)%string /\ Py.lstrip_by p pre = EmptyString.
Proof.
  induction s as [|c s IH]; simpl.
  - now exists EmptyString.
  - destruct (p c) eqn:Hc.
    + destruct IH as (pre & Heq & Hpre). exists (String c pre). simpl.
      rewrite Hc. split; [now f_equal|assumption].
    + now exists EmptyString.
Qed.

Lemma rstrip_split s :
  exists suf, s = (Py.rstrip_by p s ++ suf)%string /\ Py.lstrip_by p suf = EmptyString.
Proof.
  induction s as [|c s IH]; simpl.
  - now exists EmptyString.
  - destruct IH as (suf & Heq & Hsuf).
    destruct (Py.rstrip_by p s) as [|c' r] eqn:Hr.
    + destruct (p c) eqn:Hc.
      * exists (String c suf). simpl in *. rewrite Hc. split; [now f_equal|assumption].
      * exists suf. simpl in *. split; [now f_equal|assumption].
    + exists suf. simpl in *. split; [now f_equal|assumption].
Qed.

Lemma lstrip_head_kept s : head_kept p (Py.lstrip_by p s).
Proof.
  induction s as [|c s IH]; simpl; [exact I|].
  destruct (p c) eqn:Hc; [assumption|exact Hc].
Qed.

Lemma rstrip_head_kept s : head_kept p s -> head_kept p (Py.rstrip_by p s).
Proof.
  destruct s as [|c s]; simpl; [trivial|]. intros Hc.
  destruct (Py.rstrip_by p s); [rewrite Hc|]; exact Hc.
Qed.

Lemma lstrip_fixed s : head_kept p s -> Py.lstrip_by p s = s.
Proof. destruct s as [|c s]; simpl; [trivial|]. now intros ->. Qed.

Lemma rstrip_idem s : Py.rstrip_by p (Py.rstrip_by p s) = Py.rstrip_by p s.
Proof.
  induction s as [|c s IH]; simpl; [reflexivity|].
  destruct (Py.rstrip_by p s) as [|c' r] eqn:Hr.
  - destruct (p c) eqn:Hc; simpl; [reflexivity|now rewrite Hc].
  - change (Py.rstrip_by p (String c (String c' r))) with
      (match Py.rstrip_by p (String c' r) with
       | EmptyString => if p c then EmptyString else String c EmptyString
       | String a b => String c (String a b)
       end).
    now rewrite IH.
Qed.

Lemma strip_idem s : Py.strip_by p (Py.strip_by p s) = Py.strip_by p s.
Proof.
  unfold Py.strip_by.
  rewrite (lstrip_fixed (Py.rstrip_by p (Py.lstrip_by p s))).
  - apply rstrip_idem.
  - apply rstrip_head_kept, lstrip_head_kept.
Qed.

Lemma strip_split s :
  exists pre suf,
    s = (pre ++ Py.strip_by p s ++ suf)%string /\
    Py.lstrip_by p pre = EmptyString /\ Py.lstrip_by p suf = EmptyString.
Proof.
  destruct (lstrip_split s) as (pre & Hs & Hpre).
  destruct (rstrip_split (Py.lstrip_by p s)) as (suf & Hm & Hsuf).
  exists pre, suf. unfold Py.strip_by. split; [|now split].
  now rewrite <- Hm.
Qed.
End Strip.

Lemma wf_check {A} (d : dict A) : distinct (Dict.keys d) = true -> Dict.wf d.
Proof.
  unfold Dict.wf. induction (Dict.keys d) as [|k ks IH]; simpl; intros H.
  - constructor.
  - apply andb_prop in H as [Hk Hks]. apply NoDup_cons. split; [|auto].
    intros Hin. apply list_elem_of_In in Hin.
    assert (existsb (String.eqb k) ks = true) as Hex.
    { apply existsb_exists. exists k. split; [assumption|apply String.eqb_refl]. }
    now rewrite Hex in Hk.
Qed.

(** ** Lemmas on the functional reading *)

Lemma get_transformed ts k d :
  Dict.get k (transformed ts d) = option_map (transform ts k) (Dict.get k d).
Proof.
  induction d as [|[k1 v1] d IH]; simpl; [reflexivity|].
  destruct (String.eqb_spec k1 k) as [->|Hne]; [reflexivity|exact IH].
Qed.

Lemma merged_app E pre : forall d post,
  merged E d (pre ++ post) =
  match merged E d pre with
  | (Return _, d1, t1) =>
      match merged E d1 post with
      | (r, d2, t2) => (r, d2, t1 ++ t2)
      end
  | (Raise e, d1, t1) => (Raise e, d1, t1)
  end.
Proof.
  induction pre as [|s pre IH]; intros d post; simpl.
  - now destruct (merged E d post) as [[r d2] t2].
  - destruct (contribution E s) as [[[items|e]|e] t]; try reflexivity.
    rewrite IH.
    destruct (merged E (Dict.update d items) pre) as [[[[]|e] d1] t1]; [|reflexivity].
    destruct (merged E d1 post) as [[r d2] t2]. now rewrite app_assoc.
Qed.

Lemma loads_contribution E s items :
  loads E s = Some items -> exists t, contribution E s = (Return (Mapping items), t).
Proof.
  unfold loads. destruct (contribution E s) as [[[items'|e]|e] t]; try discriminate.
  intros [= ->]. now exists t.
Qed.

Lemma merged_loads E sources : forall d,
  Forall (fun s => is_Some (loads E s)) sources ->
  exists d' t, merged E d sources = (Return tt, d', t).
Proof.
  induction sources as [|s rest IH]; intros d Hall; simpl.
  - now exists d, [].
  - apply Forall_cons in Hall as [[items Hs] Hrest].
    apply loads_contribution in Hs as [t ->].
    destruct (IH (Dict.update d items) Hrest) as (d' & t' & ->).
    now exists d', (t ++ t').
Qed.

Lemma merged_keeps E k post : forall d,
  Forall (fun s => exists items, loads E s = Some items /\ Dict.get k items = None) post ->
  exists d' t, merged E d post = (Return tt, d', t) /\ Dict.get k d' = Dict.get k d.
Proof.
  induction post as [|s rest IH]; intros d Hall; simpl.
  - now exists d, [].
  - apply Forall_cons in Hall as [(items & Hs & Hk) Hrest].
    apply loads_contribution in Hs as [t ->].
    destruct (IH (Dict.update d items) Hrest) as (d' & t' & -> & Hd').
    exists d', (t ++ t'). split; [reflexivity|].
    rewrite Hd'. now apply get_update_None.
Qed.

Lemma inline_loads E sources :
  Forall (fun s => exists items, kind s = IsDict items) sources ->
  Forall (fun s => is_Some (loads E s)) sources.
Proof.
  intros Hall. eapply Forall_impl; [exact Hall|].
  intros s [items Hs]. exists items.
  unfold loads, contribution. now rewrite Hs.
Qed.

Lemma checked_accepts vs d :
  (forall k f v, In (k, f) vs -> Dict.get k d = Some v -> f v = true) ->
  checked vs d = (Return tt, validator_calls vs d).
Proof.
  induction vs as [|[k f] vs IH]; intros Hall; simpl; [reflexivity|].
  unfold validator_calls in *. simpl.
  rewrite IH by (intros; eapply Hall; [right|]; eauto).
  destruct (Dict.get k d) as [v|] eqn:Hk; [|reflexivity].
  now rewrite (Hall k f v (or_introl eq_refl) Hk).
Qed.

Lemma checked_first pre k f post d v :
  Dict.get k d = Some v -> f v = false ->
  (forall k' f' v', In (k', f') pre -> Dict.get k' d = Some v' -> f' v' = true) ->
  checked (pre ++ (k, f) :: post) d =
  (Raise (validation_failed k v), validator_calls pre d ++ [CallValidator k v]).
Proof.
  intros Hk Hf. induction pre as [|[k1 f1] pre IH]; intros Hall; simpl.
  - now rewrite Hk, Hf.
  - unfold validator_calls in *. simpl.
    rewrite IH by (intros; eapply Hall; [right|]; eauto).
    destruct (Dict.get k1 d) as [v1|] eqn:Hk1; [|reflexivity].
    now rewrite (Hall k1 f1 v1 (or_introl eq_refl) Hk1).
Qed.

Lemma checked_raise vs d e :
  fst (checked vs d) = Raise e ->
  exists pre k f post v,
    vs = pre ++ (k, f) :: post /\ Dict.get k d = Some v /\ f v = false /\
    e = validation_failed k v /\
    (forall k' f' v', In (k', f') pre -> Dict.get k' d = Some v' -> f' v' = true).
Proof.
  induction vs as [|[k f] vs IH]; simpl; [discriminate|].
  destruct (Dict.get k d) as [v|] eqn:Hk.
  - destruct (f v) eqn:Hf.
    + destruct (checked vs d) as [r t] eqn:Hc. simpl in *. intros Hr.
      destruct (IH Hr) as (pre & k1 & f1 & post & v1 & -> & H1 & H2 & H3 & H4).
      exists ((k, f) :: pre), k1, f1, post, v1. repeat split; try assumption.
      intros k' f' v' [[= <- <-]|Hin] Hg; [congruence|eauto].
    + simpl. intros [= <-]. exists [], k, f, vs, v. repeat split; try assumption.
      intros k' f' v' [].
  - intros Hr.
    destruct (IH Hr) as (pre & k1 & f1 & post & v1 & -> & H1 & H2 & H3 & H4).
    exists ((k, f) :: pre), k1, f1, post, v1. repeat split; try assumption.
    intros k' f' v' [[= <- <-]|Hin] Hg; [congruence|eauto].
Qed.

Lemma checked_cases vs d :
  (fst (checked vs d) = Return tt /\
   forall k f v, In (k, f) vs -> Dict.get k d = Some v -> f v = true) \/
  (exists e, fst (checked vs d) = Raise e).
Proof.
  induction vs as [|[k f] vs IH]; simpl.
  - left. split; [reflexivity|]. intros k f v [].
  - destruct (Dict.get k d) as [v|] eqn:Hk.
    + destruct (f v) eqn:Hf; [|right; now eexists].
      destruct (checked vs d) as [r t]. simpl in *.
      destruct IH as [[-> Hall]|[e ->]]; [left|right; now eexists].
      split; [reflexivity|].
      intros k' f' v' [[= <- <-]|Hin] Hg; [congruence|eauto].
    + destruct IH as [[Hr Hall]|[e He]]; [left|right; now exists e].
      split; [assumption|].
      intros k' f' v' [[= <- <-]|Hin] Hg; [congruence|eauto].
Qed.

Lemma parse_sources_fail E self sources overrides h base vs ts e d t :
  parser_at h self base vs ts ->
  merged E base sources = (Raise e, d, t) ->
  parse E self sources overrides h = (Raise e, h ++ [CDict d], t).
Proof.
  intros (this & Hs & Hc & Hv & Ht) Hm.
  unfold parse, bind. unfold get_instance. rewrite Hs.
  unfold get_dict at 1. rewrite Hc. unfold alloc.
  rewrite (process_sources_run _ _ _ _ base (lookup_fresh h _)).
  rewrite Hm. now rewrite insert_fresh.
Qed.

(** ** Construction and registration *)

Lemma init_parser_at default_config h :
  exists self h',
    __init__ default_config h = (Return self, h', []) /\
    parser_at h' self default_config [] [] /\
    (forall l, l < length h -> h' !! l = h !! l).
Proof.
  exists (length h + 3),
    (h ++ [CDict default_config; CValidators []; CTransformers [];
           CInstance (Instance (length h) (length h + 1) (length h + 2))]).
  split; [|split].
  - unfold __init__, bind, alloc. simpl. rewrite !length_app. simpl.
    rewrite <- !app_assoc. simpl.
    replace (length h + 1 + 1 + 1) with (length h + 3) by lia.
    now replace (length h + 1 + 1) with (length h + 2) by lia.
  - exists (Instance (length h) (length h + 1) (length h + 2)).
    repeat split; cbn [config validators transformers];
      rewrite lookup_app_r by lia.
    + now replace (length h + 3 - length h) with 3 by lia.
    + now rewrite Nat.sub_diag.
    + now replace (length h + 1 - length h) with 1 by lia.
    + now replace (length h + 2 - length h) with 2 by lia.
  - intros l Hl. now apply lookup_app_l.
Qed.

Lemma add_validator_parser_at h self base vs ts key f :
  parser_at h self base vs ts ->
  exists h',
    add_validator self key f h = (Return tt, h', []) /\
    parser_at h' self base (Dict.set key f vs) ts.
Proof.
  intros (this & Hs & Hc & Hv & Ht).
  exists (<[validators this := CValidators (Dict.set key f vs)]> h). split.
  - unfold add_validator, bind, get_instance, get_validators, store.
    now rewrite Hs, Hv.
  - exists this. repeat split.
    + rewrite list_lookup_insert_ne; [assumption|congruence].
    + rewrite list_lookup_insert_ne; [assumption|congruence].
    + apply list_lookup_insert_eq. eapply lookup_lt_Some, Hv.
    + rewrite list_lookup_insert_ne; [assumption|congruence].
Qed.

Lemma add_transformer_parser_at h self base vs ts key f :
  parser_at h self base vs ts ->
  exists h',
    add_transformer self key f h = (Return tt, h', []) /\
    parser_at h' self base vs (Dict.set key f ts).
Proof.
  intros (this & Hs & Hc & Hv & Ht).
  exists (<[transformers this := CTransformers (Dict.set key f ts)]> h). split.
  - unfold add_transformer, bind, get_instance, get_transformers, store.
    now rewrite Hs, Ht.
  - exists this. repeat split.
    + rewrite list_lookup_insert_ne; [assumption|congruence].
    + rewrite list_lookup_insert_ne; [assumption|congruence].
    + rewrite list_lookup_insert_ne; [assumption|congruence].
    + apply list_lookup_insert_eq. eapply lookup_lt_Some, Ht.
Qed.

(** ** The calls of the demonstration *)

Example demo_creates_parser : fst (fst (demo [])) = Return demo_self.
Proof. reflexivity. Qed.

Example parse_from_dict :
  returned (parse demo_env demo_self
              [inline [("debug", VBool true); ("port", VInt 3000)]] [] demo_heap)
  = Some [("debug", VBool true); ("port", VInt 3000);
          ("host", VStr "localhost"); ("max_connections", VInt 100)].
Proof. vm_compute. reflexivity. Qed.

Example parse_with_keywords :
  returned (parse demo_env demo_self []
              [("debug", VBool true); ("host", VStr "0.0.0.0");
               ("new_setting", VStr "value")] demo_heap)
  = Some [("debug", VBool true); ("port", VInt 8000); ("host", VStr "0.0.0.0");
          ("max_connections", VInt 100); ("new_setting", VStr "value")].
Proof. vm_compute. reflexivity. Qed.

Example parse_from_file :
  returned (parse demo_env demo_self [path_source "sample_config.txt"]
              [("debug", VBool false)] demo_heap)
  = Some [("debug", VBool false); ("port", VInt 9000); ("host", VStr "0.0.0.0");
          ("max_connections", VInt 500); ("api_key", VStr "secret123")].
Proof. vm_compute. reflexivity. Qed.

Example int_examples :
  Py.int " -1_000 " = Some (-1000)%Z /\ Py.int "1__0" = None /\
  Py.int "007" = Some 7%Z /\ Py.int "1 2" = None /\ Py.int "" = None.
Proof. repeat split; vm_compute; reflexivity. Qed.

#[warnings="-inexact-float"] Example float_examples :
  Py.float "1.5E-3" = Some 0.0015%float /\ Py.float "1_0.5" = Some 10.5%float /\
  Py.float "." = None /\ Py.float "1._5" = None /\
  Py.float "9007199254740993.0" = Some 9007199254740992%float /\
  Py.float "1.0e400" = Some infinity.
Proof. repeat split; vm_compute; reflexivity. Qed.

(** ** Value coercion *)

(** C3, as the code has it. [_convert_value] removes every leading and
    every trailing quote character of the raw text (any number of them, of
    either kind, matched or not), so that what is left neither starts nor
    ends with a quote; on that text it yields [True] for true/yes/on and
    [False] for false/no/off in any letter case, else the [float] when the
    text has a decimal point and parses as one, else the [int] when it has
    no decimal point and parses as one, else the text itself.  The raw
    texts 42, 3.14, true and hello give the integer 42, the float 3.14,
    the boolean [True] and the string hello. *)
#[warnings="-inexact-float"] Theorem convert_value_coercion (raw : string) :
  (exists p q,
     raw = (p ++ Py.strip_chars quotes raw ++ q)%string /\
     only_quotes p = true /\ only_quotes q = true) /\
  unquoted (Py.strip_chars quotes raw) = true /\
  _convert_value raw = typed (Py.strip_chars quotes raw) /\
  _convert_value "42" = VInt 42 /\
  _convert_value "3.14" = VFloat 3.14 /\
  _convert_value "true" = VBool true /\
  _convert_value "hello" = VStr "hello".
Proof.
  split; [|split; [|split]].
  - destruct (strip_split (fun c => Py.contains c quotes) raw)
      as (p & q & Hraw & Hp & Hq).
    exists p, q. unfold only_quotes. rewrite Hp, Hq. now split.
  - unfold unquoted, Py.strip_chars. rewrite strip_idem. apply String.eqb_refl.
  - unfold _convert_value, typed.
    destruct (Py.in_tuple _ ["true"; "yes"; "on"]); [reflexivity|].
    destruct (Py.in_tuple _ ["false"; "no"; "off"]); [reflexivity|].
    destruct (Py.contains "." _).
    + now destruct (Py.float _).
    + now destruct (Py.int _).
  - repeat split; vm_compute; reflexivity.
Qed.

(** C3 as stated fails: with two layers of quotes around 42 the code
    removes both and yields the integer 42, where stripping one layer
    leaves a quoted text, which is kept as a string. *)
Lemma one_layer_counterexample :
  _convert_value "''42''" = VInt 42 /\
  typed (strip_one_layer "''42''") = VStr "'42'" /\
  _convert_value "''42''" <> typed (strip_one_layer "''42''").
Proof. repeat split; try (vm_compute; reflexivity). vm_compute. discriminate. Qed.

(** ** Merging *)

Lemma demo_parser_at :
  parser_at demo_heap demo_self demo_defaults
    [("port", port_ok); ("max_connections", max_connections_ok)]
    [("host", lower_strip)].
Proof. exists (Instance 0 1 2). repeat split; reflexivity. Qed.

Lemma demo_defaults_wf : Dict.wf demo_defaults.
Proof. apply wf_check. reflexivity. Qed.

(** C8, as the code has it. When the sources before [s] are processed
    without error, [s] contributes a mapping that binds [k] to [v], and no
    source after [s] binds [k], then the result holds [v] for [k] when the
    loop over the sources ends, that is, before the overrides are merged
    and before the transformers run; earlier bindings of [k] are
    overwritten. *)
Theorem last_source_wins E result h d0 pre s post k v items :
  h !! result = Some (CDict d0) ->
  Forall (fun s' => is_Some (loads E s')) pre ->
  loads E s = Some items -> Dict.wf items -> Dict.get k items = Some v ->
  Forall (fun s' => exists items', loads E s' = Some items' /\
                                   Dict.get k items' = None) post ->
  exists h' t d,
    process_sources E result (pre ++ s :: post) h = (Return tt, h', t) /\
    h' !! result = Some (CDict d) /\
    Dict.get k d = Some v.
Proof.
  intros Hr Hpre Hs Hwf Hk Hpost.
  rewrite (process_sources_run _ _ _ _ d0 Hr), merged_app.
  destruct (merged_loads E pre d0 Hpre) as (d1 & t1 & ->). simpl.
  apply loads_contribution in Hs as [ts ->].
  destruct (merged_keeps E k post (Dict.update d1 items) Hpost)
    as (d2 & t2 & -> & Hd2).
  eexists _, _, d2. split; [reflexivity|]. split.
  - apply list_lookup_insert_eq. eapply lookup_lt_Some, Hr.
  - rewrite Hd2, get_update by assumption. now rewrite Hk.
Qed.

Lemma last_source_wins_witness :
  [CDict []] !! 0 = Some (CDict []) /\
  loads demo_env (path_source "sample_config.txt") = Some sample_items /\
  Dict.wf sample_items /\
  Dict.get "host" sample_items = Some (VStr "0.0.0.0") /\
  exists h' t d,
    process_sources demo_env 0
      ([inline [("host", VStr "a")]; inline [("host", VStr "b")]] ++
       path_source "sample_config.txt" :: [inline [("debug", VBool true)]])
      [CDict []] = (Return tt, h', t) /\
    h' !! 0 = Some (CDict d) /\
    Dict.get "host" d = Some (VStr "0.0.0.0").
Proof.
  assert (H1 : loads demo_env (path_source "sample_config.txt") = Some sample_items)
    by (vm_compute; reflexivity).
  assert (H2 : Dict.wf sample_items) by (apply wf_check; reflexivity).
  repeat (split; [first [reflexivity | assumption]|]).
  apply (last_source_wins demo_env 0 [CDict []] [] _ _ _ "host" (VStr "0.0.0.0")
           sample_items); try assumption; try reflexivity.
  - repeat constructor; eexists; reflexivity.
  - repeat constructor. eexists. split; reflexivity.
Defined.

(** C8 as stated fails: with three sources that bind the same key, the
    value before the overrides is that of the third source, not that of
    the second, although the first and the second both bind the key. *)
Lemma later_source_counterexample :
  exists h' t d,
    process_sources demo_env 0
      [inline [("port", VInt 1)]; inline [("port", VInt 2)]; inline [("port", VInt 3)]]
      [CDict []] = (Return tt, h', t) /\
    h' !! 0 = Some (CDict d) /\
    Dict.get "port" [("port", VInt 1)] = Some (VInt 1) /\
    Dict.get "port" [("port", VInt 2)] = Some (VInt 2) /\
    Dict.get "port" d = Some (VInt 3) /\
    Dict.get "port" d <> Dict.get "port" [("port", VInt 2)].
Proof.
  eexists _, _, _. repeat split; try reflexivity. vm_compute. discriminate.
Qed.

Lemma returned_fresh (h : heap) d t :
  returned (Return (length h), h ++ [CDict d], t) = Some d.
Proof. unfold returned. now rewrite lookup_fresh. Qed.

Lemma parse_outcome E self sources overrides h base vs ts d t :
  parser_at h self base vs ts -> Dict.wf base ->
  merged E base sources = (Return tt, d, t) ->
  let d3 := transformed ts (Dict.update d overrides) in
  let x := parse E self sources overrides h in
  snd x = t ++ transformer_calls ts (Dict.update d overrides) ++ snd (checked vs d3) /\
  snd (fst x) = h ++ [CDict d3] /\
  ((fst (checked vs d3) = Return tt /\ returned x = Some d3 /\ raised x = None) \/
   (exists e, fst (checked vs d3) = Raise e /\ returned x = None /\ raised x = Some e)).
Proof.
  intros Hp Hwf Hm d3 x. subst x.
  rewrite (parse_run E self sources overrides h base vs ts Hp Hwf), Hm.
  cbn zeta. fold d3. split; [reflexivity|]. split; [reflexivity|].
  destruct (fst (checked vs d3)) as [[]|e].
  - left. split; [reflexivity|]. split; [apply returned_fresh|reflexivity].
  - right. exists e. now repeat split.
Qed.

Lemma collected_outcome E self sources overrides h base vs ts d t :
  parser_at h self base vs ts ->
  merged E base sources = (Return tt, d, t) ->
  returned (collected E self sources overrides h) = Some (Dict.update d overrides).
Proof.
  intros Hp Hm. rewrite (collected_run E self sources overrides h base vs ts Hp), Hm.
  apply returned_fresh.
Qed.

Lemma collected_returned E self sources overrides h base vs ts m :
  parser_at h self base vs ts ->
  returned (collected E self sources overrides h) = Some m ->
  exists d t, merged E base sources = (Return tt, d, t) /\ m = Dict.update d overrides.
Proof.
  intros Hp. rewrite (collected_run E self sources overrides h base vs ts Hp).
  destruct (merged E base sources) as [[[[]|e] d] t]; [|discriminate].
  rewrite returned_fresh. intros [= <-]. now exists d, t.
Qed.

Lemma prepared_outcome E self sources overrides h base vs ts d t :
  parser_at h self base vs ts -> Dict.wf base ->
  merged E base sources = (Return tt, d, t) ->
  returned (prepared E self sources overrides h) =
    Some (transformed ts (Dict.update d overrides)) /\
  snd (prepared E self sources overrides h) =
    t ++ transformer_calls ts (Dict.update d overrides).
Proof.
  intros Hp Hwf Hm.
  rewrite (prepared_run E self sources overrides h base vs ts Hp Hwf), Hm.
  split; [apply returned_fresh|reflexivity].
Qed.

Lemma prepared_returned E self sources overrides h base vs ts m :
  parser_at h self base vs ts -> Dict.wf base ->
  returned (prepared E self sources overrides h) = Some m ->
  exists d t, merged E base sources = (Return tt, d, t) /\
              m = transformed ts (Dict.update d overrides).
Proof.
  intros Hp Hwf. rewrite (prepared_run E self sources overrides h base vs ts Hp Hwf).
  destruct (merged E base sources) as [[[[]|e] d] t]; [|discriminate].
  rewrite returned_fresh. intros [= <-]. now exists d, t.
Qed.

(** C1, as the code has it. For inline-mapping sources, every key of
    [overrides] has exactly the value [overrides[key]] in the merged
    result, whatever the base and the sources bind it to; the transformers
    run after that, so in the mapping that [parse] returns the key has the
    value [transformer(overrides[key])] when a transformer is registered
    for it and [overrides[key]] otherwise.  Such a call returns unless a
    validator rejects. *)
Theorem overrides_dominate E h self base vs ts sources overrides :
  parser_at h self base vs ts -> Dict.wf base -> Dict.wf overrides ->
  Forall (fun s => exists items, kind s = IsDict items) sources ->
  (exists m, returned (collected E self sources overrides h) = Some m /\
     forall k v, Dict.get k overrides = Some v -> Dict.get k m = Some v) /\
  ((exists d, returned (parse E self sources overrides h) = Some d /\
      forall k v, Dict.get k overrides = Some v ->
        Dict.get k d = Some (match Dict.get k ts with
                             | Some f => f v
                             | None => v
                             end)) \/
   (exists k v, raised (parse E self sources overrides h) = Some (validation_failed k v))).
Proof.
  intros Hp Hwf Hwfo Hinline.
  destruct (merged_loads E sources base (inline_loads E sources Hinline))
    as (d & t & Hm).
  assert (Hget : forall k v, Dict.get k overrides = Some v ->
                             Dict.get k (Dict.update d overrides) = Some v).
  { intros k v Hk. rewrite get_update by assumption. now rewrite Hk. }
  split.
  - exists (Dict.update d overrides). split; [|exact Hget].
    eapply collected_outcome; eauto.
  - destruct (parse_outcome E self sources overrides h base vs ts d t Hp Hwf Hm)
      as (_ & _ & [(_ & Hret & _)|(e & He & _ & Hraise)]).
    + left. eexists. split; [exact Hret|].
      intros k v Hk. rewrite get_transformed, (Hget k v Hk). reflexivity.
    + right. apply checked_raise in He as (_ & k & _ & _ & v & _ & _ & _ & -> & _).
      now exists k, v.
Qed.

Lemma overrides_dominate_witness :
  parser_at demo_heap demo_self demo_defaults
    [("port", port_ok); ("max_connections", max_connections_ok)]
    [("host", lower_strip)] /\
  Dict.wf demo_defaults /\
  Dict.wf [("host", VStr " EXAMPLE.com "); ("port", VInt 5000)] /\
  ((exists d,
      returned (parse demo_env demo_self [inline [("port", VInt 3000)]]
                  [("host", VStr " EXAMPLE.com "); ("port", VInt 5000)] demo_heap) = Some d /\
      forall k v,
        Dict.get k [("host", VStr " EXAMPLE.com "); ("port", VInt 5000)] = Some v ->
        Dict.get k d = Some (match Dict.get k [("host", lower_strip)] with
                             | Some f => f v
                             | None => v
                             end)) \/
   (exists k v,
      raised (parse demo_env demo_self [inline [("port", VInt 3000)]]
                [("host", VStr " EXAMPLE.com "); ("port", VInt 5000)] demo_heap)
      = Some (validation_failed k v))).
Proof.
  assert (Hwf : Dict.wf [("host", VStr " EXAMPLE.com "); ("port", VInt 5000)])
    by (apply wf_check; reflexivity).
  split; [exact demo_parser_at|]. split; [exact demo_defaults_wf|].
  split; [exact Hwf|].
  apply (overrides_dominate demo_env demo_heap demo_self demo_defaults _ _
           [inline [("port", VInt 3000)]] _ demo_parser_at demo_defaults_wf Hwf).
  repeat constructor. eexists. reflexivity.
Defined.

(** C1 as stated fails: with the transformer of the demonstration
    registered for host, an override of host is lowercased and trimmed in
    the returned mapping, so the returned value is not the override. *)
Lemma overrides_transformed_counterexample :
  exists d,
    returned (parse demo_env demo_self [] [("host", VStr " EXAMPLE.com ")] demo_heap)
      = Some d /\
    Dict.get "host" [("host", VStr " EXAMPLE.com ")] = Some (VStr " EXAMPLE.com ") /\
    Dict.get "host" d = Some (VStr "example.com") /\
    Dict.get "host" d <> Dict.get "host" [("host", VStr " EXAMPLE.com ")].
Proof.
  eexists. split; [vm_compute; reflexivity|].
  repeat split; try reflexivity. vm_compute. discriminate.
Qed.

(** ** Transformations *)

(** C7. Let [m] be the merged result of a call (sources and overrides
    merged, no transformer run yet).  The transformations complete and
    leave a mapping [d] with the keys of [m], in which a key with a
    registered transformer [f] is bound to [f] of its merged value and
    every other key keeps its merged value; [parse] returns exactly [d]
    unless a validator rejects.  With the transformer of the demonstration
    (lowercase, then trim) registered for host, parsing with an override
    of host yields the lowercased, trimmed text. *)
Theorem transformers_applied E h self base vs ts sources overrides m :
  parser_at h self base vs ts -> Dict.wf base ->
  returned (collected E self sources overrides h) = Some m ->
  (exists d,
     returned (prepared E self sources overrides h) = Some d /\
     (forall k v f, Dict.get k m = Some v -> Dict.get k ts = Some f ->
                    Dict.get k d = Some (f v)) /\
     (forall k v, Dict.get k m = Some v -> Dict.get k ts = None ->
                  Dict.get k d = Some v) /\
     (forall k, Dict.get k m = None -> Dict.get k d = None) /\
     (returned (parse E self sources overrides h) = Some d \/
      exists k v, raised (parse E self sources overrides h) =
                  Some (validation_failed k v))) /\
  (exists d,
     returned (parse demo_env demo_self [] [("host", VStr " EXAMPLE.com ")] demo_heap)
       = Some d /\
     Dict.get "host" d = Some (VStr "example.com")).
Proof.
  intros Hp Hwf Hm. split.
  - destruct (collected_returned E self sources overrides h base vs ts m Hp Hm)
      as (d1 & t & Hmerged & ->).
    exists (transformed ts (Dict.update d1 overrides)).
    split; [eapply prepared_outcome; eauto|].
    split; [|split; [|split]].
    + intros k v f Hk Hf. rewrite get_transformed, Hk. unfold transform.
      now rewrite Hf.
    + intros k v Hk Hf. rewrite get_transformed, Hk. unfold transform.
      now rewrite Hf.
    + intros k Hk. now rewrite get_transformed, Hk.
    + destruct (parse_outcome E self sources overrides h base vs ts d1 t Hp Hwf Hmerged)
        as (_ & _ & [(_ & Hret & _)|(e & He & _ & Hraise)]).
      * now left.
      * right. apply checked_raise in He as (_ & k & _ & _ & v & _ & _ & _ & -> & _).
        now exists k, v.
  - eexists. split; vm_compute; reflexivity.
Qed.

Lemma transformers_applied_witness :
  parser_at demo_heap demo_self demo_defaults
    [("port", port_ok); ("max_connections", max_connections_ok)]
    [("host", lower_strip)] /\
  Dict.wf demo_defaults /\
  returned (collected demo_env demo_self [path_source "sample_config.txt"]
              [("host", VStr " EXAMPLE.com ")] demo_heap)
    = Some [("debug", VBool true); ("port", VInt 9000);
            ("host", VStr " EXAMPLE.com "); ("max_connections", VInt 500);
            ("api_key", VStr "secret123")] /\
  exists d,
    returned (prepared demo_env demo_self [path_source "sample_config.txt"]
                [("host", VStr " EXAMPLE.com ")] demo_heap) = Some d /\
    (forall k v f,
       Dict.get k [("debug", VBool true); ("port", VInt 9000);
                   ("host", VStr " EXAMPLE.com "); ("max_connections", VInt 500);
                   ("api_key", VStr "secret123")] = Some v ->
       Dict.get k [("host", lower_strip)] = Some f ->
       Dict.get k d = Some (f v)).
Proof.
  assert (Hm : returned (collected demo_env demo_self [path_source "sample_config.txt"]
                           [("host", VStr " EXAMPLE.com ")] demo_heap)
               = Some [("debug", VBool true); ("port", VInt 9000);
                       ("host", VStr " EXAMPLE.com "); ("max_connections", VInt 500);
                       ("api_key", VStr "secret123")])
    by (vm_compute; reflexivity).
  split; [exact demo_parser_at|]. split; [exact demo_defaults_wf|].
  split; [exact Hm|].
  destruct (transformers_applied demo_env demo_heap demo_self demo_defaults _ _
              _ _ _ demo_parser_at demo_defaults_wf Hm)
    as [(d & Hd & Hf & _) _].
  exists d. split; [exact Hd|exact Hf].
Defined.

(** ** Validation *)

(** C2. Let [d] be the merged and transformed result of a call.  [parse]
    raises the validation error exactly when some key of [d] has a
    registered validator that rejects its value.  The error is the
    [ValueError] whose message is "Validation failed for config key '",
    the key, "': " and the value: it names a key of [d] with a rejecting
    validator and the value that this key has in [d], and it is the one
    of the first rejecting validator in registry order.  No mapping is
    returned; and the only validators called are those registered before
    the rejecting one (on the keys that [d] has) and the rejecting one
    itself. *)
Theorem validation_fail_fast E h self base vs ts sources overrides d :
  parser_at h self base vs ts -> Dict.wf base ->
  returned (prepared E self sources overrides h) = Some d ->
  ((exists k f v, In (k, f) vs /\ Dict.get k d = Some v /\ f v = false) <->
   (exists k v,
      raised (parse E self sources overrides h) =
        Some (Exn ValueError [Lit "Validation failed for config key '"; Lit k;
                              Lit "': "; Show v]))) /\
  (forall e,
     raised (parse E self sources overrides h) = Some e ->
     exists k f v,
       In (k, f) vs /\ Dict.get k d = Some v /\ f v = false /\
       exc_class e = ValueError /\
       exc_msg e = [Lit "Validation failed for config key '"; Lit k;
                    Lit "': "; Show v] /\
       returned (parse E self sources overrides h) = None) /\
  (raised (parse E self sources overrides h) = None ->
   returned (parse E self sources overrides h) = Some d) /\
  (forall pre k f post v,
     vs = pre ++ (k, f) :: post ->
     Dict.get k d = Some v -> f v = false ->
     (forall k' f' v', In (k', f') pre -> Dict.get k' d = Some v' -> f' v' = true) ->
     raised (parse E self sources overrides h) =
       Some (Exn ValueError [Lit "Validation failed for config key '"; Lit k;
                             Lit "': "; Show v]) /\
     returned (parse E self sources overrides h) = None /\
     snd (parse E self sources overrides h) =
       snd (prepared E self sources overrides h) ++
       validator_calls pre d ++ [CallValidator k v]).
Proof.
  intros Hp Hwf Hd.
  destruct (prepared_returned E self sources overrides h base vs ts d Hp Hwf Hd)
    as (d1 & t & Hm & ->).
  destruct (prepared_outcome E self sources overrides h base vs ts d1 t Hp Hwf Hm)
    as (_ & Htrace).
  destruct (parse_outcome E self sources overrides h base vs ts d1 t Hp Hwf Hm)
    as (Ht & _ & Hcases).
  set (d := transformed ts (Dict.update d1 overrides)) in *.
  split; [split|split; [|split]].
  - intros (k & f & v & Hin & Hk & Hf).
    destruct Hcases as [(Hok & _)|(e & He & _ & Hraise)].
    + destruct (checked_cases vs d) as [[_ Hall]|[e He]].
      * rewrite (Hall k f v Hin Hk) in Hf. discriminate.
      * rewrite Hok in He. discriminate.
    + apply checked_raise in He as (_ & k' & _ & _ & v' & _ & _ & _ & -> & _).
      now exists k', v'.
  - intros (k & v & Hraise).
    destruct Hcases as [(_ & _ & Hnone)|(e & He & _ & Hr)].
    + rewrite Hnone in Hraise. discriminate.
    + apply checked_raise in He as (pre & k' & f' & post & v' & -> & Hk & Hf & _).
      exists k', f', v'. split; [|now split].
      apply in_or_app. right. now left.
  - intros e Hraise.
    destruct Hcases as [(_ & _ & Hnone)|(e' & He & Hret & Hr)].
    + rewrite Hnone in Hraise. discriminate.
    + rewrite Hr in Hraise. injection Hraise as ->.
      apply checked_raise in He as (pre & k' & f' & post & v' & -> & Hk & Hf & -> & _).
      exists k', f', v'. split; [apply in_or_app; right; now left|].
      now repeat split.
  - intros Hnone. destruct Hcases as [(_ & Hret & _)|(e & _ & _ & Hr)].
    + exact Hret.
    + rewrite Hr in Hnone. discriminate.
  - intros pre k f post v -> Hk Hf Hpre.
    pose proof (checked_first pre k f post d v Hk Hf Hpre) as Hc.
    rewrite Ht, Htrace, Hc. cbn [snd].
    destruct Hcases as [(Hok & _)|(e & He & Hret & Hraise)].
    + rewrite Hc in Hok. discriminate.
    + rewrite Hc in He. injection He as <-.
      split; [exact Hraise|]. split; [exact Hret|]. now rewrite app_assoc.
Qed.

Lemma validation_fail_fast_witness :
  parser_at demo_heap demo_self demo_defaults
    ([] ++ ("port", port_ok) :: [("max_connections", max_connections_ok)])
    [("host", lower_strip)] /\
  Dict.wf demo_defaults /\
  returned (prepared demo_env demo_self [] [("port", VInt 70000)] demo_heap)
    = Some [("debug", VBool false); ("port", VInt 70000);
            ("host", VStr "localhost"); ("max_connections", VInt 100)] /\
  port_ok (VInt 70000) = false /\
  raised (parse demo_env demo_self [] [("port", VInt 70000)] demo_heap)
    = Some (Exn ValueError [Lit "Validation failed for config key '"; Lit "port";
                            Lit "': "; Show (VInt 70000)]) /\
  returned (parse demo_env demo_self [] [("port", VInt 70000)] demo_heap) = None /\
  snd (parse demo_env demo_self [] [("port", VInt 70000)] demo_heap) =
    snd (prepared demo_env demo_self [] [("port", VInt 70000)] demo_heap) ++
    [] ++ [CallValidator "port" (VInt 70000)].
Proof.
  assert (Hd : returned (prepared demo_env demo_self [] [("port", VInt 70000)] demo_heap)
               = Some [("debug", VBool false); ("port", VInt 70000);
                       ("host", VStr "localhost"); ("max_connections", VInt 100)])
    by (vm_compute; reflexivity).
  split; [exact demo_parser_at|]. split; [exact demo_defaults_wf|].
  split; [exact Hd|]. split; [reflexivity|].
  destruct (validation_fail_fast demo_env demo_heap demo_self demo_defaults _ _
              _ _ _ demo_parser_at demo_defaults_wf Hd) as (_ & _ & _ & Hfirst).
  apply (Hfirst [] "port" port_ok [("max_connections", max_connections_ok)]
           (VInt 70000)).
  - reflexivity.
  - reflexivity.
  - reflexivity.
  - intros k' f' v' [].
Defined.

(** ** File sources *)

Lemma OSError_is_Exception c :
  issubclass c OSError = true -> issubclass c Exception = true.
Proof. destruct c; vm_compute; congruence. Qed.

Lemma recoverable_load E file_path :
  recoverable E file_path ->
  exists m, _load_from_file E file_path = (Return (Mapping []), [Print m]).
Proof.
  intros [Hopen|e Hopen He|content e Hjson Hopen Hload He];
    unfold _load_from_file, read_file; rewrite Hopen.
  - eexists. reflexivity.
  - destruct (issubclass (exc_class e) FileNotFoundError); [now eexists|].
    rewrite (OSError_is_Exception _ He). now eexists.
  - rewrite Hjson, Hload, He. eexists. reflexivity.
Qed.

Lemma merged_skip E s t0 pre post :
  contribution E s = (Return (Mapping []), t0) ->
  forall d, fst (merged E d (pre ++ s :: post)) = fst (merged E d (pre ++ post)).
Proof.
  intros Hs d. rewrite !merged_app.
  destruct (merged E d pre) as [[[[]|e] d1] t1]; [|reflexivity].
  simpl. rewrite Hs. simpl.
  now destruct (merged E d1 post) as [[r d2] t2].
Qed.

Lemma parse_fst_congr E self sources1 sources2 overrides h :
  (forall d, fst (merged E d sources1) = fst (merged E d sources2)) ->
  fst (parse E self sources1 overrides h) = fst (parse E self sources2 overrides h).
Proof.
  intros Heq. unfold parse, bind. unfold get_instance.
  destruct (h !! self) as [[| | |this]|]; try reflexivity.
  unfold get_dict.
  destruct (h !! config this) as [[base| | |]|]; try reflexivity.
  unfold alloc.
  rewrite !(process_sources_run _ _ _ _ base (lookup_fresh h _)).
  specialize (Heq base).
  destruct (merged E base sources1) as [[r1 d1] t1].
  destruct (merged E base sources2) as [[r2 d2] t2].
  simpl in Heq. injection Heq as -> ->.
  destruct r2 as [[]|e]; [|reflexivity].
  destruct (dict_update _ _ _) as [[[[]|e1] h1] u1]; [|reflexivity].
  destruct (apply_transformations _ _ _) as [[[[]|e2] h2] u2]; [|reflexivity].
  destruct (_validate_config _ _ _) as [[[[]|e3] h3] u3]; reflexivity.
Qed.

(** C4. A missing file, a file whose reading fails with an I/O error and
    a [.json] file that the decoder rejects all make the file loader
    return an empty mapping after printing one line, without raising; a
    call of [parse] with such a path among its sources has the same
    outcome (the same returned mapping or the same exception, and the same
    final store) as the call without it. *)
Theorem unreadable_file_is_skipped E s file_path :
  kind s = IsStr file_path -> recoverable E file_path ->
  (exists m, _load_from_file E file_path = (Return (Mapping []), [Print m])) /\
  (forall self pre post overrides h,
     fst (parse E self (pre ++ s :: post) overrides h) =
     fst (parse E self (pre ++ post) overrides h)).
Proof.
  intros Hs Hrec. destruct (recoverable_load E file_path Hrec) as [m Hm].
  split; [now exists m|].
  intros self pre post overrides h. apply parse_fst_congr.
  apply (merged_skip E s [Print m]). unfold contribution. now rewrite Hs.
Qed.

Lemma unreadable_file_is_skipped_witness :
  kind (path_source "broken.json") = IsStr "broken.json" /\
  recoverable demo_env "broken.json" /\
  recoverable demo_env "locked.txt" /\
  recoverable demo_env "absent.txt" /\
  fst (parse demo_env demo_self
         ([inline [("port", VInt 3000)]] ++ path_source "broken.json" :: [])
         [("debug", VBool true)] demo_heap) =
  fst (parse demo_env demo_self ([inline [("port", VInt 3000)]] ++ [])
         [("debug", VBool true)] demo_heap).
Proof.
  assert (H1 : recoverable demo_env "broken.json").
  { apply (malformed_json demo_env "broken.json" "{"
             (Exn JSONDecodeError [Lit "Expecting property name"])); reflexivity. }
  split; [reflexivity|]. split; [exact H1|]. split; [|split].
  - apply (io_failure demo_env "locked.txt"
             (Exn PermissionError [Lit "Permission denied"])); reflexivity.
  - apply missing_file. reflexivity.
  - apply (unreadable_file_is_skipped demo_env (path_source "broken.json")
             "broken.json" eq_refl H1).
Defined.

(** ** Unsupported sources *)

Lemma merged_unsupported E s pre post d0 :
  kind s = IsNeither -> to_dict s = None ->
  exists e d t,
    merged E d0 (pre ++ s :: post) = (Raise e, d, t) /\
    (Forall (fun s' => is_Some (loads E s')) pre -> e = unsupported s).
Proof.
  intros Hk Ht. rewrite merged_app.
  assert (Hs : contribution E s = (Raise (unsupported s), [])).
  { unfold contribution. now rewrite Hk, Ht. }
  destruct (merged E d0 pre) as [[[[]|e] d1] t1] eqn:Hpre.
  - simpl. rewrite Hs. now eexists _, _, _.
  - exists e, d1, t1. split; [reflexivity|]. intros Hall.
    destruct (merged_loads E pre d0 Hall) as (d' & t' & Hm). congruence.
Qed.

Lemma merged_returned_loads E sources : forall d d' t,
  merged E d sources = (Return tt, d', t) ->
  Forall (fun s => is_Some (loads E s)) sources.
Proof.
  induction sources as [|s rest IH]; intros d d' t Hm; [constructor|].
  simpl in Hm.
  destruct (contribution E s) as [[[items|e]|e] t0] eqn:Hs; try discriminate.
  destruct (merged E (Dict.update d items) rest) as [[r d2] t2] eqn:Hrest.
  injection Hm as -> _ _. constructor; [|eapply IH, Hrest].
  exists items. unfold loads. now rewrite Hs.
Qed.

(** C5, as the code has it. A call of [parse] whose sources include a
    value that is not a [dict], not a [str] and has no [to_dict]
    attribute never returns a mapping: it raises.  When the sources
    before that value are processed without error, the exception is the
    [ValueError] whose message is "Unsupported config source type: "
    followed by the type of that very value, whatever comes after it in
    the list, in the overrides or in the registries.  When a source
    before it fails, the loop never reaches the value and the exception
    is the one of the call with the preceding sources alone. *)
Theorem unsupported_source_rejected E h self base vs ts pre s post overrides :
  parser_at h self base vs ts ->
  kind s = IsNeither -> to_dict s = None ->
  returned (parse E self (pre ++ s :: post) overrides h) = None /\
  (exists e, raised (parse E self (pre ++ s :: post) overrides h) = Some e) /\
  (Forall (fun s' => is_Some (loads E s')) pre ->
   raised (parse E self (pre ++ s :: post) overrides h) =
     Some (Exn ValueError [Lit "Unsupported config source type: ";
                           TypeOf (type_name s)])) /\
  (~ Forall (fun s' => is_Some (loads E s')) pre ->
   raised (parse E self (pre ++ s :: post) overrides h) =
     raised (parse E self pre overrides h)).
Proof.
  intros Hp Hk Ht.
  destruct (merged_unsupported E s pre post base Hk Ht) as (e & d & t & Hm & He).
  rewrite (parse_sources_fail E self _ overrides h base vs ts e d t Hp Hm).
  split; [reflexivity|]. split; [now exists e|]. split.
  - intros Hall. simpl. now rewrite (He Hall).
  - intros Hnot. rewrite merged_app in Hm.
    destruct (merged E base pre) as [[[[]|e1] d1] t1] eqn:Hpre.
    + destruct Hnot. eapply merged_returned_loads, Hpre.
    + injection Hm as <- <- <-.
      now rewrite (parse_sources_fail E self _ overrides h base vs ts e1 d1 t1 Hp Hpre).
Qed.

Lemma unsupported_source_rejected_witness :
  parser_at demo_heap demo_self demo_defaults
    [("port", port_ok); ("max_connections", max_connections_ok)]
    [("host", lower_strip)] /\
  Forall (fun s' => is_Some (loads demo_env s'))
    [inline [("port", VInt 3000)]; path_source "sample_config.txt"] /\
  raised (parse demo_env demo_self
            ([inline [("port", VInt 3000)]; path_source "sample_config.txt"] ++
             Source "int" IsNeither None :: [inline [("debug", VBool true)]])
            [("port", VInt 5000)] demo_heap) =
    Some (Exn ValueError [Lit "Unsupported config source type: "; TypeOf "int"]).
Proof.
  assert (Hall : Forall (fun s' => is_Some (loads demo_env s'))
                   [inline [("port", VInt 3000)]; path_source "sample_config.txt"]).
  { repeat constructor; eexists; vm_compute; reflexivity. }
  split; [exact demo_parser_at|]. split; [exact Hall|].
  destruct (unsupported_source_rejected demo_env demo_heap demo_self demo_defaults
              _ _ [inline [("port", VInt 3000)]; path_source "sample_config.txt"]
              (Source "int" IsNeither None) [inline [("debug", VBool true)]]
              [("port", VInt 5000)] demo_parser_at eq_refl eq_refl)
    as (_ & _ & H & _).
  exact (H Hall).
Defined.

(** C5 as stated fails: the sources of this call contain the integer 42,
    which is not a [dict], not a [str] and has no [to_dict], yet the call
    does not raise the error for an unsupported source.  The source before
    it has a [to_dict] that raises [RuntimeError]; [parse] lets that
    exception out and never reaches the integer. *)
Lemma earlier_failure_counterexample :
  kind (Source "int" IsNeither None) = IsNeither /\
  to_dict (Source "int" IsNeither None) = None /\
  In (Source "int" IsNeither None)
    [Source "Settings" IsNeither (Some (Raise (Exn RuntimeError [Lit "not ready"])));
     Source "int" IsNeither None] /\
  raised (parse demo_env demo_self
            [Source "Settings" IsNeither
               (Some (Raise (Exn RuntimeError [Lit "not ready"])));
             Source "int" IsNeither None]
            [] demo_heap) =
    Some (Exn RuntimeError [Lit "not ready"]) /\
  raised (parse demo_env demo_self
            [Source "Settings" IsNeither
               (Some (Raise (Exn RuntimeError [Lit "not ready"])));
             Source "int" IsNeither None]
            [] demo_heap) <>
    Some (Exn ValueError [Lit "Unsupported config source type: "; TypeOf "int"]).
Proof.
  split; [reflexivity|]. split; [reflexivity|]. split; [right; now left|].
  split; [vm_compute; reflexivity|]. vm_compute. discriminate.
Qed.

(** ** The instance is left as it was *)

Lemma parse_store E self sources overrides h base vs ts :
  parser_at h self base vs ts -> Dict.wf base ->
  exists d, snd (fst (parse E self sources overrides h)) = h ++ [CDict d].
Proof.
  intros Hp Hwf.
  destruct (merged E base sources) as [[[[]|e] d] t] eqn:Hm.
  - destruct (parse_outcome E self sources overrides h base vs ts d t Hp Hwf Hm)
      as (_ & Hh & _). eexists. exact Hh.
  - rewrite (parse_sources_fail E self _ overrides h base vs ts e d t Hp Hm).
    now eexists.
Qed.

Lemma parse_observed E self sources overrides h1 h2 base vs ts :
  parser_at h1 self base vs ts -> parser_at h2 self base vs ts -> Dict.wf base ->
  returned (parse E self sources overrides h1) =
    returned (parse E self sources overrides h2) /\
  raised (parse E self sources overrides h1) =
    raised (parse E self sources overrides h2) /\
  snd (parse E self sources overrides h1) = snd (parse E self sources overrides h2).
Proof.
  intros Hp1 Hp2 Hwf.
  destruct (merged E base sources) as [[[[]|e] d] t] eqn:Hm.
  - destruct (parse_outcome E self sources overrides h1 base vs ts d t Hp1 Hwf Hm)
      as (Ht1 & _ & Hc1).
    destruct (parse_outcome E self sources overrides h2 base vs ts d t Hp2 Hwf Hm)
      as (Ht2 & _ & Hc2).
    rewrite Ht1, Ht2.
    destruct Hc1 as [(Hok1 & -> & ->)|(e1 & He1 & -> & ->)];
      destruct Hc2 as [(Hok2 & -> & ->)|(e2 & He2 & -> & ->)];
      try congruence; repeat split; congruence.
  - rewrite (parse_sources_fail E self _ overrides h1 base vs ts e d t Hp1 Hm).
    rewrite (parse_sources_fail E self _ overrides h2 base vs ts e d t Hp2 Hm).
    now repeat split.
Qed.

(** C6. Whether a call of [parse] returns or raises, the store after it
    is the store before it followed by one fresh dictionary: every object
    that existed before the call, and so the instance, its base mapping,
    its validator registry and its transformer registry, is unchanged.  A
    second call, with any arguments, therefore returns the same mapping,
    or raises the same exception, and makes the same calls as it would
    have without the first one. *)
Theorem parse_leaves_instance_unchanged E h self base vs ts sources overrides :
  parser_at h self base vs ts -> Dict.wf base ->
  (exists d, snd (fst (parse E self sources overrides h)) = h ++ [CDict d]) /\
  (forall l, l < length h ->
     snd (fst (parse E self sources overrides h)) !! l = h !! l) /\
  parser_at (snd (fst (parse E self sources overrides h))) self base vs ts /\
  (forall sources' overrides',
     returned (parse E self sources' overrides'
                 (snd (fst (parse E self sources overrides h)))) =
       returned (parse E self sources' overrides' h) /\
     raised (parse E self sources' overrides'
               (snd (fst (parse E self sources overrides h)))) =
       raised (parse E self sources' overrides' h) /\
     snd (parse E self sources' overrides'
            (snd (fst (parse E self sources overrides h)))) =
       snd (parse E self sources' overrides' h)).
Proof.
  intros Hp Hwf.
  destruct (parse_store E self sources overrides h base vs ts Hp Hwf) as [d ->].
  split; [now exists d|]. split; [|split].
  - intros l Hl. now apply lookup_app_l.
  - now apply parser_at_extend.
  - intros sources' overrides'. apply (parse_observed _ _ _ _ _ _ base vs ts);
      [now apply parser_at_extend|assumption|assumption].
Qed.

Lemma parse_leaves_instance_unchanged_witness :
  parser_at demo_heap demo_self demo_defaults
    [("port", port_ok); ("max_connections", max_connections_ok)]
    [("host", lower_strip)] /\
  Dict.wf demo_defaults /\
  parser_at
    (snd (fst (parse demo_env demo_self [] [("port", VInt 70000)] demo_heap)))
    demo_self demo_defaults
    [("port", port_ok); ("max_connections", max_connections_ok)]
    [("host", lower_strip)] /\
  returned (parse demo_env demo_self [] [("host", VStr "0.0.0.0")]
              (snd (fst (parse demo_env demo_self [] [("port", VInt 70000)] demo_heap))))
  = returned (parse demo_env demo_self [] [("host", VStr "0.0.0.0")] demo_heap).
Proof.
  split; [exact demo_parser_at|]. split; [exact demo_defaults_wf|].
  destruct (parse_leaves_instance_unchanged demo_env demo_heap demo_self demo_defaults
              _ _ [] [("port", VInt 70000)] demo_parser_at demo_defaults_wf)
    as (_ & _ & Hat & Hnext).
  split; [exact Hat|]. apply Hnext.
Defined.

(** ** The exceptions of [parse] *)

Lemma rejected_raises E self sources overrides h base vs ts d :
  parser_at h self base vs ts -> Dict.wf base ->
  returned (prepared E self sources overrides h) = Some d ->
  (exists k f v, In (k, f) vs /\ Dict.get k d = Some v /\ f v = false) ->
  exists k v,
    Dict.get k d = Some v /\
    raised (parse E self sources overrides h) = Some (validation_failed k v).
Proof.
  intros Hp Hwf Hd (k & f & v & Hin & Hk & Hf).
  destruct (prepared_returned E self sources overrides h base vs ts d Hp Hwf Hd)
    as (d1 & t & Hm & ->).
  destruct (parse_outcome E self sources overrides h base vs ts d1 t Hp Hwf Hm)
    as (_ & _ & [(Hok & _)|(e & He & _ & Hraise)]).
  - destruct (checked_cases vs (transformed ts (Dict.update d1 overrides)))
      as [[_ Hall]|[e He]].
    + rewrite (Hall k f v Hin Hk) in Hf. discriminate.
    + rewrite Hok in He. discriminate.
  - apply checked_raise in He as (_ & k' & _ & _ & v' & _ & Hk' & _ & -> & _).
    now exists k', v'.
Qed.

(** C9. Both fatal conditions of [parse] raise an exception of the one
    class [ValueError]: the unsupported source, with the message
    "Unsupported config source type: " and the type of the source, and the
    rejected value, with the message "Validation failed for config key ",
    the key and the value.  The two differ by their message only, and no
    exception class of the program is named UnsupportedSourceType or
    ValidationFailed. *)
Theorem fatal_errors_are_ValueError E h self base vs ts sources overrides :
  parser_at h self base vs ts -> Dict.wf base ->
  (forall pre s post,
     sources = pre ++ s :: post ->
     Forall (fun s' => is_Some (loads E s')) pre ->
     kind s = IsNeither -> to_dict s = None ->
     exists e,
       raised (parse E self sources overrides h) = Some e /\
       exc_class e = ValueError /\
       exc_msg e = [Lit "Unsupported config source type: "; TypeOf (type_name s)]) /\
  (forall d,
     returned (prepared E self sources overrides h) = Some d ->
     (exists k f v, In (k, f) vs /\ Dict.get k d = Some v /\ f v = false) ->
     exists e k v,
       raised (parse E self sources overrides h) = Some e /\
       exc_class e = ValueError /\
       exc_msg e = [Lit "Validation failed for config key '"; Lit k;
                    Lit "': "; Show v]) /\
  (forall s k v, exc_msg (unsupported s) <> exc_msg (validation_failed k v)) /\
  (forall c, class_name c <> "UnsupportedSourceType" /\
             class_name c <> "ValidationFailed").
Proof.
  intros Hp Hwf. split; [|split; [|split]].
  - intros pre s post -> Hall Hk Ht.
    destruct (merged_unsupported E s pre post base Hk Ht) as (e & d & t & Hm & He).
    rewrite (parse_sources_fail E self _ overrides h base vs ts e d t Hp Hm).
    exists e. rewrite (He Hall). now repeat split.
  - intros d Hd Hrej.
    destruct (rejected_raises E self sources overrides h base vs ts d Hp Hwf Hd Hrej)
      as (k & v & _ & Hraise).
    exists (validation_failed k v), k, v. now repeat split.
  - intros s k v. discriminate.
  - intros c. destruct c; split; discriminate.
Qed.

Lemma fatal_errors_are_ValueError_witness :
  parser_at demo_heap demo_self demo_defaults
    [("port", port_ok); ("max_connections", max_connections_ok)]
    [("host", lower_strip)] /\
  Dict.wf demo_defaults /\
  (exists e,
     raised (parse demo_env demo_self ([] ++ Source "float" IsNeither None :: [])
               [("port", VInt 70000)] demo_heap) = Some e /\
     exc_class e = ValueError /\
     exc_msg e = [Lit "Unsupported config source type: "; TypeOf "float"]).
Proof.
  split; [exact demo_parser_at|]. split; [exact demo_defaults_wf|].
  destruct (fatal_errors_are_ValueError demo_env demo_heap demo_self demo_defaults
              _ _ ([] ++ Source "float" IsNeither None :: []) [("port", VInt 70000)]
              demo_parser_at demo_defaults_wf) as (H & _).
  apply (H [] (Source "float" IsNeither None) []); try reflexivity. constructor.
Defined.

(** ** Dispatch on the shape of a source *)

Lemma load_events E file_path ev :
  In ev (snd (_load_from_file E file_path)) -> exists m, ev = Print m.
Proof.
  unfold _load_from_file. destruct (read_file E file_path) as [o|e]; simpl; [tauto|].
  destruct (issubclass (exc_class e) FileNotFoundError); simpl.
  - intros [<-|[]]. now eexists.
  - destruct (issubclass (exc_class e) Exception); simpl; [|tauto].
    intros [<-|[]]. now eexists.
Qed.












(** * Further properties of the class *)

Lemma set_split {A} (k : string) (v : A) (d : dict A) :
  exists pre post,
    Dict.set k v d = pre ++ (k, v) :: post /\
    (forall x, In x pre -> In x d /\ fst x <> k) /\
    (forall x, In x post -> In x d).
Proof.
  induction d as [|[k1 v1] d IH]; simpl.
  - exists [], []. split; [reflexivity|]. split; intros x [].
  - destruct (String.eqb_spec k1 k) as [->|Hne].
    + exists [], d. split; [reflexivity|]. split; [intros x []|].
      intros x Hx. now right.
    + destruct IH as (pre & post & -> & Hpre & Hpost).
      exists ((k1, v1) :: pre), post. split; [reflexivity|]. split.
      * intros x [<-|Hx]; [split; [now left|assumption]|].
        destruct (Hpre x Hx). split; [now right|assumption].
      * intros x Hx. right. auto.
Qed.

Lemma transformed_nil d : transformed [] d = d.
Proof.
  induction d as [|[k v] d IH]; [reflexivity|].
  unfold transformed in *. simpl. now rewrite IH.
Qed.

Lemma transformer_calls_nil d : transformer_calls [] d = [].
Proof. induction d as [|[k v] d IH]; [reflexivity|exact IH]. Qed.

Lemma get_mem {A} k (d : dict A) v : Dict.get k d = Some v -> Dict.mem k d = true.
Proof. unfold Dict.mem. now intros ->. Qed.

(** X1. [add_validator] binds the key to the new function in the
    registry, in place of any validator registered for it before and at
    that validator's position, or at the end for a new key; the other
    validators, the base mapping and the transformers are as before.  The
    next call of [parse] enforces it: when the new validator rejects the
    value that the merged and transformed result has for the key, and the
    other validators accept, [parse] raises the validation error for that
    key and value and returns nothing. *)
Theorem add_validator_registers E h self base vs ts key f :
  parser_at h self base vs ts -> Dict.wf base ->
  exists h',
    add_validator self key f h = (Return tt, h', []) /\
    parser_at h' self base (Dict.set key f vs) ts /\
    Dict.get key (Dict.set key f vs) = Some f /\
    (forall k, k <> key -> Dict.get k (Dict.set key f vs) = Dict.get k vs) /\
    Dict.keys (Dict.set key f vs) =
      (if Dict.mem key vs then Dict.keys vs else Dict.keys vs ++ [key]) /\
    (forall sources overrides d v,
       returned (prepared E self sources overrides h') = Some d ->
       Dict.get key d = Some v -> f v = false ->
       (forall k' f' v', In (k', f') vs -> k' <> key ->
                         Dict.get k' d = Some v' -> f' v' = true) ->
       raised (parse E self sources overrides h') = Some (validation_failed key v) /\
       returned (parse E self sources overrides h') = None).
Proof.
  intros Hp Hwf.
  destruct (add_validator_parser_at h self base vs ts key f Hp) as (h' & Hrun & Hp').
  exists h'. split; [exact Hrun|]. split; [exact Hp'|].
  split; [apply get_set_eq|]. split; [intros k Hk; now apply get_set_ne|].
  split; [apply keys_set|].
  intros sources overrides d v Hd Hk Hf Hothers.
  destruct (prepared_returned E self sources overrides h' base _ ts d Hp' Hwf Hd)
    as (d1 & t & Hm & ->).
  destruct (parse_outcome E self sources overrides h' base _ ts d1 t Hp' Hwf Hm)
    as (_ & _ & Hcases).
  destruct (set_split key f vs) as (pre & post & Hset & Hpre & _).
  rewrite Hset in Hcases.
  rewrite (checked_first pre key f post _ v Hk Hf) in Hcases.
  - destruct Hcases as [(Hok & _)|(e & He & Hret & Hraise)]; [discriminate|].
    injection He as <-. now split.
  - intros k' f' v' Hin Hg. destruct (Hpre _ Hin) as [Hin' Hne].
    eapply Hothers; eauto.
Qed.

Lemma add_validator_registers_witness :
  parser_at demo_heap demo_self demo_defaults
    [("port", port_ok); ("max_connections", max_connections_ok)]
    [("host", lower_strip)] /\
  Dict.wf demo_defaults /\
  exists h',
    add_validator demo_self "port" (fun _ => false) demo_heap = (Return tt, h', []) /\
    Dict.keys (Dict.set "port" (fun _ : value => false)
                 [("port", port_ok); ("max_connections", max_connections_ok)]) =
      ["port"; "max_connections"].
Proof.
  split; [exact demo_parser_at|]. split; [exact demo_defaults_wf|].
  destruct (add_validator_registers demo_env demo_heap demo_self demo_defaults
              _ _ "port" (fun _ => false) demo_parser_at demo_defaults_wf)
    as (h' & Hrun & _ & _ & _ & Hkeys & _).
  exists h'. split; [exact Hrun|exact Hkeys].
Defined.

(** X2. [add_transformer] binds the key to the new function in the
    registry, in place of any transformer registered for it before; the
    other transformers, the base mapping and the validators are as before.
    The next call of [parse] applies it: a key of the merged result that
    has the new transformer is bound, in the result handed to validation,
    to the new function applied to the merged value. *)
Theorem add_transformer_registers E h self base vs ts key f :
  parser_at h self base vs ts -> Dict.wf base ->
  exists h',
    add_transformer self key f h = (Return tt, h', []) /\
    parser_at h' self base vs (Dict.set key f ts) /\
    Dict.get key (Dict.set key f ts) = Some f /\
    (forall k, k <> key -> Dict.get k (Dict.set key f ts) = Dict.get k ts) /\
    (forall sources overrides m v,
       returned (collected E self sources overrides h') = Some m ->
       Dict.get key m = Some v ->
       exists d,
         returned (prepared E self sources overrides h') = Some d /\
         Dict.get key d = Some (f v)).
Proof.
  intros Hp Hwf.
  destruct (add_transformer_parser_at h self base vs ts key f Hp) as (h' & Hrun & Hp').
  exists h'. split; [exact Hrun|]. split; [exact Hp'|].
  split; [apply get_set_eq|]. split; [intros k Hk; now apply get_set_ne|].
  intros sources overrides m v Hm Hk.
  destruct (collected_returned E self sources overrides h' base vs _ m Hp' Hm)
    as (d1 & t & Hmerged & ->).
  destruct (prepared_outcome E self sources overrides h' base vs _ d1 t Hp' Hwf Hmerged)
    as (Hret & _).
  eexists. split; [exact Hret|].
  rewrite get_transformed, Hk. unfold transform. now rewrite get_set_eq.
Qed.

Lemma add_transformer_registers_witness :
  parser_at demo_heap demo_self demo_defaults
    [("port", port_ok); ("max_connections", max_connections_ok)]
    [("host", lower_strip)] /\
  Dict.wf demo_defaults /\
  exists h',
    add_transformer demo_self "debug" (fun _ => VBool true) demo_heap
      = (Return tt, h', []) /\
    parser_at h' demo_self demo_defaults
      [("port", port_ok); ("max_connections", max_connections_ok)]
      (Dict.set "debug" (fun _ => VBool true) [("host", lower_strip)]).
Proof.
  split; [exact demo_parser_at|]. split; [exact demo_defaults_wf|].
  destruct (add_transformer_registers demo_env demo_heap demo_self demo_defaults
              _ _ "debug" (fun _ => VBool true) demo_parser_at demo_defaults_wf)
    as (h' & Hrun & Hat & _).
  exists h'. split; [exact Hrun|exact Hat].
Defined.

(** X3. A parser as its constructor leaves it, with no validator and no
    transformer registered, returns from [parse] exactly the merged
    mapping; called with overrides only, a parser just constructed from
    [defaults] returns [defaults] updated with the overrides, and called
    with no argument at all it returns [defaults]. *)
Theorem fresh_parser_returns_merge E h default_config :
  Dict.wf default_config ->
  exists self h',
    __init__ default_config h = (Return self, h', []) /\
    (forall sources overrides,
       returned (parse E self sources overrides h') =
         returned (collected E self sources overrides h') /\
       raised (parse E self sources overrides h') =
         raised (collected E self sources overrides h')) /\
    (forall overrides,
       returned (parse E self [] overrides h') =
         Some (Dict.update default_config overrides)) /\
    returned (parse E self [] [] h') = Some default_config.
Proof.
  intros Hwf. destruct (init_parser_at default_config h) as (self & h' & Hrun & Hp & _).
  exists self, h'. split; [exact Hrun|].
  assert (Hgen : forall sources overrides,
    returned (parse E self sources overrides h') =
      returned (collected E self sources overrides h') /\
    raised (parse E self sources overrides h') =
      raised (collected E self sources overrides h')).
  { intros sources overrides.
    rewrite (collected_run E self sources overrides h' default_config [] [] Hp).
    destruct (merged E default_config sources) as [[[[]|e] d] t] eqn:Hm.
    - destruct (parse_outcome E self sources overrides h' default_config [] [] d t
                  Hp Hwf Hm) as (_ & _ & [(_ & -> & ->)|(e & He & _)]).
      + rewrite transformed_nil, returned_fresh. now split.
      + discriminate.
    - rewrite (parse_sources_fail E self _ overrides h' default_config [] [] e d t Hp Hm).
      now split. }
  split; [exact Hgen|].
  assert (Hov : forall overrides,
    returned (parse E self [] overrides h') = Some (Dict.update default_config overrides)).
  { intros overrides. destruct (Hgen [] overrides) as [-> _].
    now apply (collected_outcome E self [] overrides h' default_config [] []
                 default_config []). }
  split; [exact Hov|]. exact (Hov []).
Qed.

Lemma fresh_parser_returns_merge_witness :
  Dict.wf [("debug", VBool false); ("port", VInt 8000)] /\
  exists self h',
    __init__ [("debug", VBool false); ("port", VInt 8000)] [] = (Return self, h', []) /\
    returned (parse demo_env self [] [("host", VStr "0.0.0.0")] h') =
      Some (Dict.update [("debug", VBool false); ("port", VInt 8000)]
              [("host", VStr "0.0.0.0")]).
Proof.
  assert (Hwf : Dict.wf [("debug", VBool false); ("port", VInt 8000)])
    by (apply wf_check; reflexivity).
  split; [exact Hwf|].
  destruct (fresh_parser_returns_merge demo_env [] _ Hwf)
    as (self & h' & Hrun & _ & Hov & _).
  exists self, h'. split; [exact Hrun|apply Hov].
Defined.

(** ** Precedence and keys of the result *)

Lemma pick_app k a b :
  pick k (a ++ b) = match pick k a with Some v => Some v | None => pick k b end.
Proof.
  induction a as [|d a IH]; simpl; [reflexivity|].
  now destruct (Dict.get k d).
Qed.

Lemma get_fold_update k itemss : forall d,
  Forall Dict.wf itemss ->
  Dict.get k (fold_left Dict.update itemss d) = pick k (rev itemss ++ [d]).
Proof.
  induction itemss as [|i r IH]; intros d Hwf; simpl.
  - now destruct (Dict.get k d).
  - apply Forall_cons in Hwf as [Hi Hr]. rewrite IH by assumption.
    rewrite <- app_assoc, !pick_app. simpl.
    destruct (pick k (rev r)); [reflexivity|].
    rewrite get_update by assumption.
    destruct (Dict.get k i); [reflexivity|]. now destruct (Dict.get k d).
Qed.

Lemma merged_all E sources : forall itemss d,
  Forall2 (fun s items => loads E s = Some items /\ Dict.wf items) sources itemss ->
  exists t, merged E d sources = (Return tt, fold_left Dict.update itemss d, t).
Proof.
  induction sources as [|s rest IH]; intros itemss d Hall.
  - apply Forall2_nil_inv_l in Hall as ->. now exists [].
  - apply Forall2_cons_inv_l in Hall as (items & r & [Hs Hwf] & Hrest & ->).
    simpl. apply loads_contribution in Hs as [t0 ->].
    destruct (IH r (Dict.update d items) Hrest) as [t ->]. now eexists.
Qed.

Lemma Forall2_wf E sources itemss :
  Forall2 (fun s items => loads E s = Some items /\ Dict.wf items) sources itemss ->
  Forall Dict.wf itemss.
Proof.
  induction 1 as [|s items sources itemss [_ Hwf] _ IH]; constructor; assumption.
Qed.

Lemma keys_update {A} (o : dict A) : forall d,
  (exists added, Dict.keys (Dict.update d o) = Dict.keys d ++ added) /\
  (forall k, In k (Dict.keys (Dict.update d o)) <->
             In k (Dict.keys d) \/ In k (Dict.keys o)).
Proof.
  induction o as [|[k1 v1] o IH]; intros d.
  - split; [exists []; now rewrite app_nil_r|]. simpl. tauto.
  - rewrite update_cons. destruct (IH (Dict.set k1 v1 d)) as [[added Hadd] Hin].
    assert (Hset : forall k, In k (Dict.keys (Dict.set k1 v1 d)) <->
                             In k (Dict.keys d) \/ k = k1).
    { intros k. rewrite keys_set. unfold Dict.mem.
      destruct (Dict.get k1 d) as [a|] eqn:Hg.
      - split; [tauto|]. intros [H| ->]; [assumption|].
        apply get_Some_In in Hg. change (In k1 (map fst d)).
        apply in_map_iff. now exists (k1, a).
      - rewrite in_app_iff. simpl. intuition congruence. }
    split.
    + rewrite Hadd, keys_set. destruct (Dict.mem k1 d).
      * now exists added.
      * exists ([k1] ++ added). now rewrite app_assoc.
    + intros k. rewrite Hin, Hset. simpl. intuition congruence.
Qed.

Lemma keys_fold_update itemss : forall (d : dict value),
  (exists added, Dict.keys (fold_left Dict.update itemss d) = Dict.keys d ++ added) /\
  (forall k, In k (Dict.keys (fold_left Dict.update itemss d)) <->
             In k (Dict.keys d) \/ exists items, In items itemss /\ In k (Dict.keys items)).
Proof.
  induction itemss as [|i r IH]; intros d; simpl.
  - split; [exists []; now rewrite app_nil_r|].
    intros k. split; [tauto|]. intros [H|(items & [] & _)]. exact H.
  - destruct (IH (Dict.update d i)) as [[added Hadd] Hin].
    destruct (keys_update i d) as [[added0 Hadd0] Hin0]. split.
    + exists (added0 ++ added). now rewrite Hadd, Hadd0, app_assoc.
    + intros k. rewrite Hin, Hin0. split.
      * intros [[H|H]|(items & Hi & Hk)]; [now left| |].
        -- right. exists i. split; [now left|assumption].
        -- right. exists items. split; [now right|assumption].
      * intros [H|(items & [<-|Hi] & Hk)]; [tauto|tauto|].
        right. now exists items.
Qed.

Lemma keys_transformed ts d : Dict.keys (transformed ts d) = Dict.keys d.
Proof.
  unfold Dict.keys, transformed. rewrite map_map. reflexivity.
Qed.

Lemma parse_returned E self sources overrides h base vs ts d :
  parser_at h self base vs ts -> Dict.wf base ->
  returned (parse E self sources overrides h) = Some d ->
  exists d1 t,
    merged E base sources = (Return tt, d1, t) /\
    d = transformed ts (Dict.update d1 overrides) /\
    fst (checked vs d) = Return tt.
Proof.
  intros Hp Hwf Hd.
  destruct (merged E base sources) as [[[[]|e] d1] t] eqn:Hm.
  - destruct (parse_outcome E self sources overrides h base vs ts d1 t Hp Hwf Hm)
      as (_ & _ & [(Hok & Hret & _)|(e & _ & Hret & _)]).
    + rewrite Hret in Hd. injection Hd as <-. now exists d1, t.
    + rewrite Hret in Hd. discriminate.
  - rewrite (parse_sources_fail E self _ overrides h base vs ts e d1 t Hp Hm) in Hd.
    discriminate.
Qed.

(** X4. The value that [parse] returns for a key is decided by
    precedence: the overrides first, then the sources from the last to the
    first, then the base mapping; the first of these that binds the key
    gives the merged value, and the returned value is the registered
    transformer applied to it, or the merged value itself when the key has
    no transformer.  A key that none of them binds is absent from the
    result. *)
Theorem precedence_order E h self base vs ts sources itemss overrides d k :
  parser_at h self base vs ts -> Dict.wf base -> Dict.wf overrides ->
  Forall2 (fun s items => loads E s = Some items /\ Dict.wf items) sources itemss ->
  returned (parse E self sources overrides h) = Some d ->
  Dict.get k d =
    match pick k (overrides :: rev itemss ++ [base]) with
    | Some v => Some (match Dict.get k ts with Some f => f v | None => v end)
    | None => None
    end.
Proof.
  intros Hp Hwf Hwfo Hall Hd.
  destruct (parse_returned E self sources overrides h base vs ts d Hp Hwf Hd)
    as (d1 & t & Hm & -> & _).
  destruct (merged_all E sources itemss base Hall) as [t' Hm'].
  rewrite Hm in Hm'. injection Hm' as -> _.
  rewrite get_transformed, get_update by assumption. simpl.
  destruct (Dict.get k overrides) as [v|]; [reflexivity|].
  rewrite get_fold_update by (eapply Forall2_wf; eauto).
  now destruct (pick k (rev itemss ++ [base])).
Qed.

Lemma precedence_order_witness :
  parser_at demo_heap demo_self demo_defaults
    [("port", port_ok); ("max_connections", max_connections_ok)]
    [("host", lower_strip)] /\
  Dict.wf demo_defaults /\
  returned (parse demo_env demo_self
              [inline [("port", VInt 3000)]; path_source "sample_config.txt"]
              [("host", VStr " EXAMPLE.com ")] demo_heap)
    = Some [("debug", VBool true); ("port", VInt 9000); ("host", VStr "example.com");
            ("max_connections", VInt 500); ("api_key", VStr "secret123")] /\
  Dict.get "port"
    [("debug", VBool true); ("port", VInt 9000); ("host", VStr "example.com");
     ("max_connections", VInt 500); ("api_key", VStr "secret123")] =
  match pick "port" ([("host", VStr " EXAMPLE.com ")]
                     :: rev [[("port", VInt 3000)]; sample_items] ++ [demo_defaults]) with
  | Some v => Some (match Dict.get "port" [("host", lower_strip)] with
                    | Some f => f v
                    | None => v
                    end)
  | None => None
  end.
Proof.
  assert (Hd : returned (parse demo_env demo_self
                 [inline [("port", VInt 3000)]; path_source "sample_config.txt"]
                 [("host", VStr " EXAMPLE.com ")] demo_heap)
    = Some [("debug", VBool true); ("port", VInt 9000); ("host", VStr "example.com");
            ("max_connections", VInt 500); ("api_key", VStr "secret123")])
    by (vm_compute; reflexivity).
  split; [exact demo_parser_at|]. split; [exact demo_defaults_wf|]. split; [exact Hd|].
  apply (precedence_order demo_env demo_heap demo_self demo_defaults _ _
           [inline [("port", VInt 3000)]; path_source "sample_config.txt"]
           [[("port", VInt 3000)]; sample_items] _ _ "port"
           demo_parser_at demo_defaults_wf); try assumption.
  - apply wf_check. reflexivity.
  - constructor; [split; [reflexivity|apply wf_check; reflexivity]|].
    constructor; [split; [vm_compute; reflexivity|apply wf_check; reflexivity]|].
    constructor.
Defined.

(** X5. [parse] drops no key and invents none: the keys of the returned
    mapping are exactly the keys of the base mapping, of the mappings the
    sources contribute and of the overrides; they are pairwise distinct,
    and the keys of the base mapping come first, in the order of the base
    mapping. *)
Theorem result_keys E h self base vs ts sources itemss overrides d :
  parser_at h self base vs ts -> Dict.wf base ->
  Forall2 (fun s items => loads E s = Some items /\ Dict.wf items) sources itemss ->
  returned (parse E self sources overrides h) = Some d ->
  (forall k, In k (Dict.keys d) <->
             In k (Dict.keys base) \/
             (exists items, In items itemss /\ In k (Dict.keys items)) \/
             In k (Dict.keys overrides)) /\
  (exists added, Dict.keys d = Dict.keys base ++ added) /\
  Dict.wf d.
Proof.
  intros Hp Hwf Hall Hd.
  destruct (parse_returned E self sources overrides h base vs ts d Hp Hwf Hd)
    as (d1 & t & Hm & -> & _).
  destruct (merged_all E sources itemss base Hall) as [t' Hm'].
  rewrite Hm in Hm'. injection Hm' as -> _.
  destruct (keys_fold_update itemss base) as [[a1 Ha1] Hin1].
  destruct (keys_update overrides (fold_left Dict.update itemss base))
    as [[a2 Ha2] Hin2].
  unfold Dict.wf. rewrite keys_transformed. split; [|split].
  - intros k. rewrite Hin2, Hin1. tauto.
  - exists (a1 ++ a2). now rewrite Ha2, Ha1, app_assoc.
  - apply wf_update. eapply merged_wf; eauto.
Qed.

Lemma result_keys_witness :
  parser_at demo_heap demo_self demo_defaults
    [("port", port_ok); ("max_connections", max_connections_ok)]
    [("host", lower_strip)] /\
  Dict.wf demo_defaults /\
  returned (parse demo_env demo_self [path_source "sample_config.txt"]
              [("extra", VInt 1)] demo_heap)
    = Some [("debug", VBool true); ("port", VInt 9000); ("host", VStr "0.0.0.0");
            ("max_connections", VInt 500); ("api_key", VStr "secret123");
            ("extra", VInt 1)] /\
  exists added,
    Dict.keys [("debug", VBool true); ("port", VInt 9000); ("host", VStr "0.0.0.0");
               ("max_connections", VInt 500); ("api_key", VStr "secret123");
               ("extra", VInt 1)] = Dict.keys demo_defaults ++ added.
Proof.
  assert (Hd : returned (parse demo_env demo_self [path_source "sample_config.txt"]
                           [("extra", VInt 1)] demo_heap)
    = Some [("debug", VBool true); ("port", VInt 9000); ("host", VStr "0.0.0.0");
            ("max_connections", VInt 500); ("api_key", VStr "secret123");
            ("extra", VInt 1)])
    by (vm_compute; reflexivity).
  split; [exact demo_parser_at|]. split; [exact demo_defaults_wf|]. split; [exact Hd|].
  assert (Hall : Forall2 (fun s items => loads demo_env s = Some items /\ Dict.wf items)
                   [path_source "sample_config.txt"] [sample_items]).
  { constructor; [split; [vm_compute; reflexivity|apply wf_check; reflexivity]|].
    constructor. }
  destruct (result_keys demo_env demo_heap demo_self demo_defaults _ _
              [path_source "sample_config.txt"] [sample_items] [("extra", VInt 1)] _
              demo_parser_at demo_defaults_wf Hall Hd) as (_ & Hpre & _).
  exact Hpre.
Defined.

(** ** Order of the phases and calls to user code *)

Lemma merged_events_kind E ev sources : forall d,
  In ev (snd (merged E d sources)) ->
  (exists m, ev = Print m) \/ (exists s, ev = CallToDict s).
Proof.
  assert (Hc : forall s, In ev (snd (contribution E s)) ->
                         (exists m, ev = Print m) \/ (exists s', ev = CallToDict s')).
  { intros s. unfold contribution. destruct (kind s) as [items|file_path|]; simpl.
    - tauto.
    - intros Hin. left. eapply load_events, Hin.
    - destruct (to_dict s); simpl; [|tauto]. intros [<-|[]]. right. now eexists. }
  induction sources as [|s rest IH]; intros d; simpl; [tauto|].
  specialize (Hc s).
  destruct (contribution E s) as [[[items|e]|e] t]; simpl in *; try exact Hc.
  specialize (IH (Dict.update d items)).
  destruct (merged E (Dict.update d items) rest) as [[r d'] t']. simpl in *.
  intros Hin. apply in_app_or in Hin as [Hin|Hin]; auto.
Qed.

Lemma checked_events_kind vs d ev :
  In ev (snd (checked vs d)) ->
  exists k f v, ev = CallValidator k v /\ In (k, f) vs /\ Dict.get k d = Some v.
Proof.
  induction vs as [|[k f] vs IH]; simpl; [tauto|].
  destruct (Dict.get k d) as [v|] eqn:Hk.
  - destruct (f v).
    + destruct (checked vs d) as [r t]. simpl in *. intros [<-|Hin].
      * exists k, f, v. now repeat split; [left|].
      * destruct (IH Hin) as (k' & f' & v' & -> & Hin' & Hg).
        exists k', f', v'. repeat split; [now right|assumption].
    + simpl. intros [<-|[]]. exists k, f, v. now repeat split; [left|].
  - intros Hin. destruct (IH Hin) as (k' & f' & v' & -> & Hin' & Hg).
    exists k', f', v'. repeat split; [now right|assumption].
Qed.

Lemma transformer_calls_In ts d ev :
  In ev (transformer_calls ts d) <->
  exists k v, ev = CallTransformer k v /\ In (k, v) d /\ Dict.mem k ts = true.
Proof.
  unfold transformer_calls. rewrite in_flat_map. split.
  - intros ([k v] & Hin & Hev). simpl in Hev.
    destruct (Dict.mem k ts) eqn:Hmem; [|contradiction].
    destruct Hev as [<-|[]]. now exists k, v.
  - intros (k & v & -> & Hin & Hmem). exists (k, v). split; [assumption|].
    simpl. rewrite Hmem. now left.
Qed.

Lemma In_mem {A} k (f : A) (d : dict A) : In (k, f) d -> Dict.mem k d = true.
Proof.
  unfold Dict.mem. intros Hin. destruct (Dict.get k d) eqn:Hg; [reflexivity|].
  apply get_None_keys in Hg. exfalso. apply Hg.
  change (In k (map fst d)). apply in_map_iff. now exists (k, f).
Qed.

Lemma parse_trace E self sources overrides h base vs ts m :
  parser_at h self base vs ts -> Dict.wf base ->
  returned (collected E self sources overrides h) = Some m ->
  Dict.wf m /\
  exists t,
    (forall ev, In ev t -> (exists x, ev = Print x) \/ (exists s, ev = CallToDict s)) /\
    snd (parse E self sources overrides h) =
      t ++ transformer_calls ts m ++ snd (checked vs (transformed ts m)).
Proof.
  intros Hp Hwf Hm.
  destruct (collected_returned E self sources overrides h base vs ts m Hp Hm)
    as (d1 & t & Hmerged & ->).
  split; [apply wf_update; eapply merged_wf; eauto|].
  exists t. split.
  - intros ev Hin. apply (merged_events_kind E ev sources base). now rewrite Hmerged.
  - now destruct (parse_outcome E self sources overrides h base vs ts d1 t Hp Hwf Hmerged)
      as (-> & _).
Qed.

(** X6. Validation comes after transformation: every call that [parse]
    makes to a validator is for a key that has a registered validator and
    that the merged result binds, and the value passed is the registered
    transformer applied to the merged value of that key, or the merged
    value itself when the key has no transformer. *)
Theorem validators_see_transformed E h self base vs ts sources overrides m k v :
  parser_at h self base vs ts -> Dict.wf base ->
  returned (collected E self sources overrides h) = Some m ->
  In (CallValidator k v) (snd (parse E self sources overrides h)) ->
  Dict.mem k vs = true /\
  exists v0,
    Dict.get k m = Some v0 /\
    v = match Dict.get k ts with Some f => f v0 | None => v0 end.
Proof.
  intros Hp Hwf Hm Hin.
  destruct (parse_trace E self sources overrides h base vs ts m Hp Hwf Hm)
    as (_ & t & Ht & Htrace).
  rewrite Htrace in Hin. apply in_app_or in Hin as [Hin|Hin].
  { destruct (Ht _ Hin) as [[x Hx]|[s Hs]]; discriminate. }
  apply in_app_or in Hin as [Hin|Hin].
  { apply transformer_calls_In in Hin as (k' & v' & Hev & _). discriminate. }
  apply checked_events_kind in Hin as (k' & f' & v' & [= <- <-] & Hin' & Hg).
  split; [eapply In_mem; eauto|].
  rewrite get_transformed in Hg. destruct (Dict.get k m) as [v0|]; [|discriminate].
  exists v0. split; [reflexivity|]. simpl in Hg. now injection Hg as <-.
Qed.

Lemma clamped_parser_at :
  parser_at clamped_heap demo_self demo_defaults
    [("port", port_ok); ("max_connections", max_connections_ok)]
    [("host", lower_strip); ("port", clamp_port)].
Proof. exists (Instance 0 1 2). repeat split; reflexivity. Qed.

Lemma validators_see_transformed_witness :
  parser_at clamped_heap demo_self demo_defaults
    [("port", port_ok); ("max_connections", max_connections_ok)]
    [("host", lower_strip); ("port", clamp_port)] /\
  returned (collected demo_env demo_self [] [("port", VInt 70000)] clamped_heap)
    = Some [("debug", VBool false); ("port", VInt 70000);
            ("host", VStr "localhost"); ("max_connections", VInt 100)] /\
  In (CallValidator "port" (VInt 65535))
     (snd (parse demo_env demo_self [] [("port", VInt 70000)] clamped_heap)) /\
  exists v0,
    Dict.get "port" [("debug", VBool false); ("port", VInt 70000);
                     ("host", VStr "localhost"); ("max_connections", VInt 100)]
      = Some v0 /\
    VInt 65535 = match Dict.get "port" [("host", lower_strip); ("port", clamp_port)] with
                 | Some f => f v0
                 | None => v0
                 end.
Proof.
  assert (Hm : returned (collected demo_env demo_self [] [("port", VInt 70000)]
                           clamped_heap)
               = Some [("debug", VBool false); ("port", VInt 70000);
                       ("host", VStr "localhost"); ("max_connections", VInt 100)])
    by (vm_compute; reflexivity).
  assert (Hin : In (CallValidator "port" (VInt 65535))
                   (snd (parse demo_env demo_self [] [("port", VInt 70000)]
                           clamped_heap)))
    by (vm_compute; tauto).
  split; [exact clamped_parser_at|]. split; [exact Hm|]. split; [exact Hin|].
  exact (proj2 (validators_see_transformed demo_env clamped_heap demo_self
                  demo_defaults _ _ [] [("port", VInt 70000)] _ "port" (VInt 65535)
                  clamped_parser_at demo_defaults_wf Hm Hin)).
Defined.

(** X7. [parse] calls a transformer exactly for the keys of the merged
    result that have one, with the merged value of the key: a transformer
    whose key the merged result lacks is never called, and none is called
    with any other value.  This holds whether validation then passes or
    fails. *)
Theorem transformer_called_on_merged_value E h self base vs ts sources overrides m k v :
  parser_at h self base vs ts -> Dict.wf base ->
  returned (collected E self sources overrides h) = Some m ->
  (In (CallTransformer k v) (snd (parse E self sources overrides h)) <->
   Dict.get k m = Some v /\ Dict.mem k ts = true).
Proof.
  intros Hp Hwf Hm.
  destruct (parse_trace E self sources overrides h base vs ts m Hp Hwf Hm)
    as (Hwfm & t & Ht & ->).
  split.
  - intros Hin. apply in_app_or in Hin as [Hin|Hin].
    { destruct (Ht _ Hin) as [[x Hx]|[s Hs]]; discriminate. }
    apply in_app_or in Hin as [Hin|Hin].
    + apply transformer_calls_In in Hin as (k' & v' & [= <- <-] & Hin & Hmem).
      split; [now apply In_get_wf|assumption].
    + apply checked_events_kind in Hin as (k' & f' & v' & Hev & _). discriminate.
  - intros [Hk Hmem]. apply in_or_app. right. apply in_or_app. left.
    apply transformer_calls_In. exists k, v. split; [reflexivity|].
    split; [now apply get_Some_In|assumption].
Qed.

Lemma transformer_called_on_merged_value_witness :
  parser_at demo_heap demo_self demo_defaults
    [("port", port_ok); ("max_connections", max_connections_ok)]
    [("host", lower_strip)] /\
  returned (collected demo_env demo_self [] [("host", VStr " EXAMPLE.com ")] demo_heap)
    = Some [("debug", VBool false); ("port", VInt 8000);
            ("host", VStr " EXAMPLE.com "); ("max_connections", VInt 100)] /\
  In (CallTransformer "host" (VStr " EXAMPLE.com "))
     (snd (parse demo_env demo_self [] [("host", VStr " EXAMPLE.com ")] demo_heap)).
Proof.
  assert (Hm : returned (collected demo_env demo_self []
                           [("host", VStr " EXAMPLE.com ")] demo_heap)
               = Some [("debug", VBool false); ("port", VInt 8000);
                       ("host", VStr " EXAMPLE.com "); ("max_connections", VInt 100)])
    by (vm_compute; reflexivity).
  split; [exact demo_parser_at|]. split; [exact Hm|].
  apply (transformer_called_on_merged_value demo_env demo_heap demo_self demo_defaults
           _ _ [] [("host", VStr " EXAMPLE.com ")] _ "host" (VStr " EXAMPLE.com ")
           demo_parser_at demo_defaults_wf Hm).
  split; reflexivity.
Defined.

Lemma validate_items_store config items : forall h,
  snd (fst (validate_items config items h)) = h.
Proof.
  induction items as [|[k f] items IH]; intros h; simpl; [reflexivity|].
  unfold bind at 1. unfold get_dict at 1.
  destruct (h !! config) as [[d| | |]|]; try reflexivity.
  specialize (IH h).
  destruct (Dict.get k d) as [v|].
  - unfold bind, emit. destruct (f v); [|reflexivity].
    now destruct (validate_items config items h) as [[r h'] t].
  - now destruct (validate_items config items h) as [[r h'] t].
Qed.

(** X8. [_validate_config] only reads: whatever it does, the store after
    it is the store before it.  It calls a validator only for a key that
    the configuration has, with the value of that key, and it returns
    normally exactly when every registered validator accepts the value of
    its key; validators of absent keys are skipped. *)
Theorem validate_config_reads_only self config h :
  snd (fst (_validate_config self config h)) = h /\
  (forall this vs d,
     h !! self = Some (CInstance this) ->
     h !! validators this = Some (CValidators vs) ->
     h !! config = Some (CDict d) ->
     (forall k v, In (CallValidator k v) (snd (_validate_config self config h)) ->
                  Dict.get k d = Some v /\ Dict.mem k vs = true) /\
     ((forall k f v, In (k, f) vs -> Dict.get k d = Some v -> f v = true) <->
      fst (fst (_validate_config self config h)) = Return tt)).
Proof.
  split.
  - unfold _validate_config, bind, get_instance.
    destruct (h !! self) as [[| | |this]|]; try reflexivity.
    unfold get_validators.
    destruct (h !! validators this) as [[|vs| |]|]; try reflexivity.
    pose proof (validate_items_store config vs h) as Hs.
    now destruct (validate_items config vs h) as [[r h'] t].
  - intros this vs d Hs Hv Hc.
    rewrite (_validate_config_run self config this vs h d Hs Hv Hc). cbn [fst snd].
    split.
    + intros k v Hin.
      apply checked_events_kind in Hin as (k' & f' & v' & [= <- <-] & Hin & Hg).
      split; [assumption|eapply In_mem; eauto].
    + split.
      * intros Hall. now rewrite (checked_accepts vs d Hall).
      * intros Hok. destruct (checked_cases vs d) as [[_ Hall]|[e He]]; [exact Hall|].
        rewrite Hok in He. discriminate.
Qed.

Lemma validate_config_reads_only_witness :
  demo_heap !! demo_self = Some (CInstance (Instance 0 1 2)) /\
  demo_heap !! 0 = Some (CDict demo_defaults) /\
  fst (fst (_validate_config demo_self 0 demo_heap)) = Return tt.
Proof.
  split; [reflexivity|]. split; [reflexivity|].
  destruct (validate_config_reads_only demo_self 0 demo_heap) as [_ H].
  destruct (H (Instance 0 1 2)
              [("port", port_ok); ("max_connections", max_connections_ok)]
              demo_defaults eq_refl eq_refl eq_refl) as [_ [Hok _]].
  apply Hok. intros k f v [[= <- <-]|[[= <- <-]|[]]] [= <-]; reflexivity.
Defined.

(** X9. The mapping that [parse] returns is a new object, stored where
    nothing was before the call: the caller can rebind any key in it
    without changing the parser, whose base mapping and registries stay
    as they were, and later calls of [parse] behave as if the returned
    mapping had never been touched. *)
Theorem returned_mapping_is_fresh E h self base vs ts sources overrides l h' t :
  parser_at h self base vs ts -> Dict.wf base ->
  parse E self sources overrides h = (Return l, h', t) ->
  h !! l = None /\
  forall key v,
    exists h'',
      dict_setitem l key v h' = (Return tt, h'', []) /\
      parser_at h'' self base vs ts /\
      (forall sources' overrides',
         returned (parse E self sources' overrides' h'') =
           returned (parse E self sources' overrides' h) /\
         raised (parse E self sources' overrides' h'') =
           raised (parse E self sources' overrides' h)).
Proof.
  intros Hp Hwf Hrun.
  rewrite (parse_run E self sources overrides h base vs ts Hp Hwf) in Hrun.
  destruct (merged E base sources) as [[[[]|e] d] t0]; [|discriminate].
  cbn zeta in Hrun.
  destruct (fst (checked vs (transformed ts (Dict.update d overrides))));
    [|discriminate].
  injection Hrun as <- <- _.
  split; [apply lookup_ge_None_2; lia|].
  intros key v.
  exists (h ++ [CDict (Dict.set key v (transformed ts (Dict.update d overrides)))]).
  split; [|split].
  - unfold dict_setitem, bind, get_dict, store. rewrite lookup_fresh.
    now rewrite insert_fresh.
  - now apply parser_at_extend.
  - intros sources' overrides'.
    destruct (parse_observed E self sources' overrides'
                (h ++ [CDict (Dict.set key v (transformed ts (Dict.update d overrides)))])
                h base vs ts) as (H1 & H2 & _);
      [now apply parser_at_extend|assumption|assumption|now split].
Qed.

Lemma returned_mapping_is_fresh_witness :
  parser_at demo_heap demo_self demo_defaults
    [("port", port_ok); ("max_connections", max_connections_ok)]
    [("host", lower_strip)] /\
  fst (fst (parse demo_env demo_self [] [("debug", VBool true)] demo_heap)) = Return 4 /\
  demo_heap !! 4 = None.
Proof.
  split; [exact demo_parser_at|]. split; [reflexivity|].
  destruct (parse demo_env demo_self [] [("debug", VBool true)] demo_heap)
    as [[r h'] t] eqn:Hrun.
  assert (Hr : r = Return 4).
  { change r with (fst (fst (r, h', t))). rewrite <- Hrun. reflexivity. }
  subst r.
  exact (proj1 (returned_mapping_is_fresh demo_env demo_heap demo_self demo_defaults
                  _ _ [] [("debug", VBool true)] 4 h' t
                  demo_parser_at demo_defaults_wf Hrun)).
Defined.

(** ** File sources, line by line *)

Lemma split1_contains sep s :
  Py.contains sep s = true -> exists a b, Py.split1 sep s = [a; b].
Proof.
  induction s as [|c s IH]; simpl; [discriminate|].
  destruct (Ascii.eqb c sep); simpl.
  - intros _. now eexists _, _.
  - intros H. destruct (IH H) as (a & b & ->). now eexists _, _.
Qed.

Lemma read_lines_total lines : forall config,
  Dict.wf config ->
  exists config', read_lines config lines = Return config' /\ Dict.wf config'.
Proof.
  induction lines as [|line rest IH]; intros config Hwf; simpl.
  - now exists config.
  - destruct (negb (String.eqb (Py.strip line) "") &&
              negb (Py.startswith "#" (Py.strip line))); [|now apply IH].
    destruct (Py.contains "=" (Py.strip line)) eqn:Hc; [|now apply IH].
    destruct (split1_contains _ _ Hc) as (a & b & ->).
    apply IH. now apply wf_set.
Qed.

Lemma FileNotFoundError_is_Exception c :
  issubclass c FileNotFoundError = true -> issubclass c Exception = true.
Proof. destruct c; vm_compute; congruence. Qed.

(** X10. [_load_from_file] lets through only what is not an [Exception]:
    if it raises, the exception comes from opening or reading the file and
    its class does not derive from [Exception] (a keyboard interrupt, for
    one), and every such exception is let through, with nothing printed.
    A readable file whose name does not end in [.json] always loads:
    whatever its text, the loader returns a mapping with distinct keys,
    prints nothing and raises nothing. *)
Theorem load_from_file_absorbs_exceptions E file_path :
  (forall e t,
     _load_from_file E file_path = (Raise e, t) ->
     read_file E file_path = Raise e /\
     issubclass (exc_class e) Exception = false /\ t = []) /\
  (forall e,
     read_file E file_path = Raise e ->
     issubclass (exc_class e) Exception = false ->
     _load_from_file E file_path = (Raise e, [])) /\
  (forall content,
     open_ E file_path = Text content ->
     Py.endswith ".json" file_path = false ->
     exists config,
       _load_from_file E file_path = (Return (Mapping config), []) /\
       Dict.wf config).
Proof.
  split; [|split].
  - intros e t. unfold _load_from_file.
    destruct (read_file E file_path) as [o|e']; [discriminate|].
    destruct (issubclass (exc_class e') FileNotFoundError); [discriminate|].
    destruct (issubclass (exc_class e') Exception) eqn:Hex; [discriminate|].
    intros [= <- <-]. now repeat split.
  - intros e Hread Hex. unfold _load_from_file. rewrite Hread, Hex.
    destruct (issubclass (exc_class e) FileNotFoundError) eqn:Hfnf; [|reflexivity].
    apply FileNotFoundError_is_Exception in Hfnf. congruence.
  - intros content Hopen Hjson. unfold _load_from_file, read_file.
    rewrite Hopen, Hjson.
    destruct (read_lines_total (Py.readlines content) []) as (config & -> & Hwf).
    + constructor.
    + now exists config.
Qed.

Lemma load_from_file_absorbs_exceptions_witness :
  open_ demo_env "sample_config.txt" = Text sample_config_content /\
  Py.endswith ".json" "sample_config.txt" = false /\
  exists config,
    _load_from_file demo_env "sample_config.txt" = (Return (Mapping config), []) /\
    Dict.wf config.
Proof.
  split; [reflexivity|]. split; [reflexivity|].
  destruct (load_from_file_absorbs_exceptions demo_env "sample_config.txt")
    as (_ & _ & H).
  apply (H sample_config_content); reflexivity.
Defined.

Lemma failing_source_aborts E h self base vs ts pre s post overrides e t0 :
  parser_at h self base vs ts ->
  Forall (fun s' => is_Some (loads E s')) pre ->
  (contribution E s = (Raise e, t0) \/
   contribution E s = (Return (NotMapping e), t0)) ->
  exists t1,
    parse E self (pre ++ s :: post) overrides h =
    (Raise e, snd (fst (parse E self (pre ++ s :: post) overrides h)), t1 ++ t0).
Proof.
  intros Hp Hpre Hs.
  destruct (merged_loads E pre base Hpre) as (d1 & t1 & Hm1).
  assert (Hm : merged E base (pre ++ s :: post) = (Raise e, d1, t1 ++ t0)).
  { rewrite merged_app, Hm1. simpl. now destruct Hs as [-> | ->]. }
  rewrite (parse_sources_fail E self _ overrides h base vs ts e d1 _ Hp Hm).
  now exists t1.
Qed.

(** X11. [parse] catches nothing that a source throws at it.  When the
    sources before it are processed without error: an exception raised by
    a source's [to_dict] comes out of [parse] unchanged, right after the
    call of [to_dict]; an object returned by [to_dict] that [dict.update]
    rejects makes [parse] raise the exception of [update]; so does a
    [.json] file whose document is valid but is no mapping.  In each case
    no mapping is returned. *)
Theorem source_failures_propagate E h self base vs ts pre s post overrides e :
  parser_at h self base vs ts ->
  Forall (fun s' => is_Some (loads E s')) pre ->
  (kind s = IsNeither ->
   to_dict s = Some (Raise e) \/ to_dict s = Some (Return (NotMapping e)) ->
   raised (parse E self (pre ++ s :: post) overrides h) = Some e /\
   returned (parse E self (pre ++ s :: post) overrides h) = None /\
   exists t, snd (parse E self (pre ++ s :: post) overrides h) = t ++ [CallToDict s]) /\
  (forall file_path content,
     kind s = IsStr file_path ->
     open_ E file_path = Text content ->
     Py.endswith ".json" file_path = true ->
     json_load E content = Return (NotMapping e) ->
     raised (parse E self (pre ++ s :: post) overrides h) = Some e /\
     returned (parse E self (pre ++ s :: post) overrides h) = None).
Proof.
  intros Hp Hpre. split.
  - intros Hk Hcall.
    destruct (failing_source_aborts E h self base vs ts pre s post overrides e
                [CallToDict s] Hp Hpre) as [t1 Hrun].
    { unfold contribution. rewrite Hk. destruct Hcall as [-> | ->]; auto. }
    rewrite Hrun. split; [reflexivity|]. split; [reflexivity|]. now exists t1.
  - intros file_path content Hk Hopen Hjson Hload.
    destruct (failing_source_aborts E h self base vs ts pre s post overrides e
                [] Hp Hpre) as [t1 Hrun].
    { right. unfold contribution, _load_from_file, read_file.
      now rewrite Hk, Hopen, Hjson, Hload. }
    rewrite Hrun. now split.
Qed.

Lemma source_failures_propagate_witness :
  parser_at demo_heap demo_self demo_defaults
    [("port", port_ok); ("max_connections", max_connections_ok)]
    [("host", lower_strip)] /\
  Forall (fun s' => is_Some (loads demo_env s')) [inline [("port", VInt 3000)]] /\
  raised (parse demo_env demo_self
            ([inline [("port", VInt 3000)]] ++
             Source "Settings" IsNeither
               (Some (Raise (Exn RuntimeError [Lit "not ready"]))) :: [])
            [] demo_heap)
    = Some (Exn RuntimeError [Lit "not ready"]).
Proof.
  assert (Hall : Forall (fun s' => is_Some (loads demo_env s'))
                   [inline [("port", VInt 3000)]]).
  { repeat constructor. eexists. reflexivity. }
  split; [exact demo_parser_at|]. split; [exact Hall|].
  destruct (source_failures_propagate demo_env demo_heap demo_self demo_defaults _ _
              [inline [("port", VInt 3000)]]
              (Source "Settings" IsNeither
                 (Some (Raise (Exn RuntimeError [Lit "not ready"]))))
              [] [] (Exn RuntimeError [Lit "not ready"]) demo_parser_at Hall)
    as [H _].
  apply H; [reflexivity|now left].
Defined.

Section StripAppend.
Variable p : ascii -> bool.

Lemma lstrip_app_keep k c v :
  p c = false ->
  Py.lstrip_by p (k ++ String c v)%string = (Py.lstrip_by p k ++ String c v)%string.
Proof.
  intros Hc. induction k as [|a k IH]; simpl.
  - now rewrite Hc.
  - destruct (p a); [exact IH|reflexivity].
Qed.

Lemma rstrip_app_keep k c v :
  p c = false ->
  Py.rstrip_by p (k ++ String c v)%string = (k ++ String c (Py.rstrip_by p v))%string.
Proof.
  intros Hc. induction k as [|a k IH].
  - simpl. destruct (Py.rstrip_by p v); [now rewrite Hc|reflexivity].
  - change (Py.rstrip_by p (String a k ++ String c v)%string) with
      (match Py.rstrip_by p (k ++ String c v)%string with
       | EmptyString => if p a then EmptyString else String a EmptyString
       | String x y => String a (String x y)
       end).
    rewrite IH. now destruct k.
Qed.

Lemma lstrip_rstrip_comm s :
  Py.lstrip_by p (Py.rstrip_by p s) = Py.rstrip_by p (Py.lstrip_by p s).
Proof.
  induction s as [|c s IH]; [reflexivity|].
  change (Py.rstrip_by p (String c s)) with
    (match Py.rstrip_by p s with
     | EmptyString => if p c then EmptyString else String c EmptyString
     | String x y => String c (String x y)
     end).
  simpl Py.lstrip_by at 2. destruct (p c) eqn:Hc.
  - rewrite <- IH. destruct (Py.rstrip_by p s) as [|x y]; [reflexivity|].
    simpl. now rewrite Hc.
  - change (Py.rstrip_by p (String c s)) with
      (match Py.rstrip_by p s with
       | EmptyString => if p c then EmptyString else String c EmptyString
       | String x y => String c (String x y)
       end).
    rewrite Hc. destruct (Py.rstrip_by p s); simpl; now rewrite Hc.
Qed.

Lemma lstrip_app_all q x :
  Py.lstrip_by p q = EmptyString -> Py.lstrip_by p (q ++ x)%string = Py.lstrip_by p x.
Proof.
  induction q as [|a q IH]; simpl; [reflexivity|].
  destruct (p a); [exact IH|discriminate].
Qed.

Lemma rstrip_all q : Py.lstrip_by p q = EmptyString -> Py.rstrip_by p q = EmptyString.
Proof.
  induction q as [|a q IH]; simpl; [reflexivity|].
  destruct (p a); [|discriminate]. intros H. now rewrite (IH H).
Qed.

Lemma rstrip_app_all s q :
  Py.lstrip_by p q = EmptyString -> Py.rstrip_by p (s ++ q)%string = Py.rstrip_by p s.
Proof.
  intros Hq. induction s as [|c s IH].
  - simpl. now apply rstrip_all.
  - change (Py.rstrip_by p (String c s ++ q)%string) with
      (match Py.rstrip_by p (s ++ q)%string with
       | EmptyString => if p c then EmptyString else String c EmptyString
       | String x y => String c (String x y)
       end).
    now rewrite IH.
Qed.

Lemma strip_lstrip s : Py.strip_by p (Py.lstrip_by p s) = Py.strip_by p s.
Proof.
  unfold Py.strip_by. now rewrite (lstrip_fixed p _ (lstrip_head_kept p s)).
Qed.

Lemma strip_rstrip s : Py.strip_by p (Py.rstrip_by p s) = Py.strip_by p s.
Proof.
  unfold Py.strip_by. now rewrite lstrip_rstrip_comm, rstrip_idem.
Qed.

Lemma strip_app_keep k c v :
  p c = false ->
  Py.strip_by p (k ++ String c v)%string =
  (Py.lstrip_by p k ++ String c (Py.rstrip_by p v))%string.
Proof.
  intros Hc. unfold Py.strip_by. rewrite lstrip_app_keep by assumption.
  now apply rstrip_app_keep.
Qed.

Lemma strip_wrapped q1 s q2 :
  Py.lstrip_by p q1 = EmptyString -> Py.lstrip_by p q2 = EmptyString ->
  Py.strip_by p (q1 ++ s ++ q2)%string = Py.strip_by p s.
Proof.
  intros H1 H2. unfold Py.strip_by. rewrite lstrip_app_all by assumption.
  rewrite <- !lstrip_rstrip_comm. now rewrite rstrip_app_all.
Qed.
End StripAppend.

Lemma contains_lstrip p c k :
  Py.contains c k = false -> Py.contains c (Py.lstrip_by p k) = false.
Proof.
  induction k as [|a k IH]; simpl; [trivial|].
  intros H. apply orb_false_iff in H as [Ha Hk].
  destruct (p a); [auto|]. simpl. now rewrite Ha, Hk.
Qed.

Lemma contains_app c k v : Py.contains c (k ++ String c v)%string = true.
Proof.
  induction k as [|a k IH]; simpl.
  - now rewrite Ascii.eqb_refl.
  - rewrite IH. apply orb_true_r.
Qed.

Lemma split1_first sep k v :
  Py.contains sep k = false -> Py.split1 sep (k ++ String sep v)%string = [k; v].
Proof.
  induction k as [|a k IH]; simpl.
  - now rewrite Ascii.eqb_refl.
  - intros H. apply orb_false_iff in H as [Ha Hk]. rewrite Ha. now rewrite IH.
Qed.

Lemma read_lines_cons config line rest :
  read_lines config (line :: rest) =
  if negb (String.eqb (Py.strip line) "") && negb (Py.startswith "#" (Py.strip line))
  then if Py.contains "=" (Py.strip line)
       then match Py.split1 "=" (Py.strip line) with
            | [key; value] =>
                read_lines
                  (Dict.set (Py.strip key) (_convert_value (Py.strip value)) config)
                  rest
            | _ => Raise (Exn ValueError [Lit "not enough values to unpack"])
            end
       else read_lines config rest
  else read_lines config rest.
Proof. reflexivity. Qed.

(** X12. In the line format, a line is split at its first [=]: the text
    before it, without the surrounding blanks, is the key, and the text
    after it, which may hold further [=] signs, is stripped of its
    surrounding blanks and converted to give the value; the rest of the
    file is then read with that binding in place, so that a later line for
    the same key replaces the value.  A line that is blank, that starts
    with [#] after its leading blanks, or that has no [=] changes
    nothing. *)
Theorem line_format config line rest :
  (forall key_text value_text,
     line = (key_text ++ "=" ++ value_text)%string ->
     Py.contains "=" key_text = false ->
     Py.startswith "#" (Py.strip line) = false ->
     read_lines config (line :: rest) =
     read_lines (Dict.set (Py.strip key_text)
                          (_convert_value (Py.strip value_text)) config) rest) /\
  (Py.strip line = "" \/ Py.startswith "#" (Py.strip line) = true \/
   Py.contains "=" (Py.strip line) = false ->
   read_lines config (line :: rest) = read_lines config rest).
Proof.
  split.
  - intros key_text value_text -> Hkey Hcomment.
    assert (Hstrip : Py.strip (key_text ++ "=" ++ value_text)%string =
                     (Py.lstrip_by Py.isspace key_text ++
                      String "=" (Py.rstrip_by Py.isspace value_text))%string).
    { unfold Py.strip. now apply strip_app_keep. }
    rewrite read_lines_cons, Hcomment, Hstrip.
    rewrite contains_app.
    rewrite split1_first by now apply contains_lstrip.
    assert (Hne : String.eqb (Py.lstrip_by Py.isspace key_text ++
                    String "=" (Py.rstrip_by Py.isspace value_text))%string "" = false)
      by now destruct (Py.lstrip_by Py.isspace key_text).
    rewrite Hne. cbn [negb andb].
    unfold Py.strip. now rewrite strip_lstrip, strip_rstrip.
  - intros H. rewrite read_lines_cons.
    destruct H as [-> | [-> | ->]].
    + reflexivity.
    + now rewrite andb_false_r.
    + now destruct (negb _ && negb _).
Qed.

Lemma line_format_witness :
  Py.contains "=" " url " = false /\
  Py.startswith "#" (Py.strip " url = 'a=b' ") = false /\
  read_lines [("url", VInt 1)] [" url = 'a=b' "; "# note"] =
  read_lines (Dict.set (Py.strip " url ") (_convert_value (Py.strip " 'a=b' "))
                [("url", VInt 1)])
             ["# note"].
Proof.
  split; [reflexivity|]. split; [reflexivity|].
  destruct (line_format [("url", VInt 1)] " url = 'a=b' " ["# note"]) as [H _].
  apply (H " url " " 'a=b' "); reflexivity.
Defined.

(** ** Value coercion, further *)

Lemma convert_typed raw : _convert_value raw = typed (Py.strip_chars quotes raw).
Proof.
  unfold _convert_value, typed.
  destruct (Py.in_tuple _ ["true"; "yes"; "on"]); [reflexivity|].
  destruct (Py.in_tuple _ ["false"; "no"; "off"]); [reflexivity|].
  destruct (Py.contains "." _).
  - now destruct (Py.float _).
  - now destruct (Py.int _).
Qed.

Lemma typed_str v s : typed v = VStr s -> s = v.
Proof.
  unfold typed.
  destruct (Py.in_tuple _ ["true"; "yes"; "on"]); [discriminate|].
  destruct (Py.in_tuple _ ["false"; "no"; "off"]); [discriminate|].
  destruct (Py.contains "." v).
  - destruct (Py.float v); [discriminate|]. now intros [= <-].
  - destruct (Py.int v); [discriminate|]. now intros [= <-].
Qed.

(** X13. Quoting does not protect a value: any run of quote characters
    put before a raw text, and any run put after it, changes nothing to
    what [_convert_value] returns, so that a quoted number is still read
    as a number and a quoted yes as [True]. *)
Theorem quotes_do_not_protect before raw after :
  only_quotes before = true -> only_quotes after = true ->
  _convert_value (before ++ raw ++ after)%string = _convert_value raw.
Proof.
  unfold only_quotes. intros Hb Ha.
  apply String.eqb_eq in Hb, Ha.
  rewrite !convert_typed. unfold Py.strip_chars.
  now rewrite strip_wrapped.
Qed.

Lemma quotes_do_not_protect_witness :
  only_quotes "'" = true /\ only_quotes "'" = true /\
  _convert_value ("'" ++ "8080" ++ "'")%string = _convert_value "8080".
Proof.
  split; [reflexivity|]. split; [reflexivity|].
  apply quotes_do_not_protect; reflexivity.
Defined.

(** X14. A value that [_convert_value] leaves as a string carries no
    quote at either end and is stable: converting that string again gives
    the same string. *)
Theorem converted_string_is_stable raw s :
  _convert_value raw = VStr s ->
  unquoted s = true /\ _convert_value s = VStr s.
Proof.
  rewrite convert_typed. intros H. pose proof (typed_str _ _ H) as ->.
  assert (Hs : Py.strip_chars quotes (Py.strip_chars quotes raw)
               = Py.strip_chars quotes raw)
    by (unfold Py.strip_chars; apply strip_idem).
  split.
  - unfold unquoted. rewrite Hs. apply String.eqb_refl.
  - rewrite convert_typed. now rewrite Hs.
Qed.

Lemma converted_string_is_stable_witness :
  _convert_value "'0.0.0.0'" = VStr "0.0.0.0" /\
  unquoted "0.0.0.0" = true /\ _convert_value "0.0.0.0" = VStr "0.0.0.0".
Proof.
  assert (H : _convert_value "'0.0.0.0'" = VStr "0.0.0.0") by (vm_compute; reflexivity).
  split; [exact H|]. exact (converted_string_is_stable _ _ H).
Defined.

(** ** Integers written in decimal *)

Section IntChars.
Variable p : ascii -> bool.
Hypothesis p_int_char : forall c, is_int_char c = true -> p c = false.

Lemma lstrip_int_text s : string_forall is_int_char s = true -> Py.lstrip_by p s = s.
Proof.
  destruct s as [|c s]; simpl; [reflexivity|].
  intros H. apply andb_prop in H as [Hc _]. now rewrite (p_int_char c Hc).
Qed.

Lemma rstrip_int_text s : string_forall is_int_char s = true -> Py.rstrip_by p s = s.
Proof.
  induction s as [|c s IH]; simpl; [reflexivity|].
  intros H. apply andb_prop in H as [Hc Hs]. rewrite (IH Hs).
  destruct s; [now rewrite (p_int_char c Hc)|reflexivity].
Qed.

Lemma strip_int_text s : string_forall is_int_char s = true -> Py.strip_by p s = s.
Proof.
  intros H. unfold Py.strip_by. rewrite lstrip_int_text by assumption.
  now apply rstrip_int_text.
Qed.
End IntChars.

Lemma int_char_facts c :
  is_int_char c = true ->
  Py.isblank c = false /\ Py.contains c quotes = false /\ Py.lower_char c = c /\
  Ascii.eqb c "." = false /\ Ascii.eqb c "t" = false /\ Ascii.eqb c "y" = false /\
  Ascii.eqb c "o" = false /\ Ascii.eqb c "f" = false /\ Ascii.eqb c "n" = false.
Proof.
  destruct c as [[] [] [] [] [] [] [] []]; vm_compute; intros H;
    first [discriminate H | repeat split].
Qed.

Lemma lower_int_text s : string_forall is_int_char s = true -> Py.lower s = s.
Proof.
  induction s as [|c s IH]; simpl; [reflexivity|].
  intros H. apply andb_prop in H as [Hc Hs].
  destruct (int_char_facts c Hc) as (_ & _ & -> & _). now rewrite IH.
Qed.

Lemma no_point_in_int_text s :
  string_forall is_int_char s = true -> Py.contains "." s = false.
Proof.
  induction s as [|c s IH]; simpl; [reflexivity|].
  intros H. apply andb_prop in H as [Hc Hs].
  destruct (int_char_facts c Hc) as (_ & _ & _ & -> & _). now rewrite IH.
Qed.

Lemma int_text_is_no_keyword s :
  string_forall is_int_char s = true ->
  Py.in_tuple s ["true"; "yes"; "on"] = false /\
  Py.in_tuple s ["false"; "no"; "off"] = false.
Proof.
  destruct s as [|c s]; [now split|]. simpl.
  intros H. apply andb_prop in H as [Hc _].
  destruct (int_char_facts c Hc) as (_ & _ & _ & _ & -> & -> & -> & -> & ->).
  now split.
Qed.

Lemma uint_text_int_chars d :
  string_forall is_int_char (DecimalString.NilEmpty.string_of_uint d) = true.
Proof. induction d; simpl; try reflexivity; exact IHd. Qed.

Lemma decimal_acc d : forall acc,
  fold_left (fun a x => 10 * a + x)%Z (digits_of d) (Z.pos acc) =
  Z.pos (Pos.of_uint_acc d acc).
Proof.
  induction d; intros acc; cbn [digits_of fold_left Pos.of_uint_acc];
    try reflexivity; rewrite <- IHd; f_equal; lia.
Qed.

Lemma decimal_of_uint d : Py.decimal (digits_of d) = Z.of_N (Pos.of_uint d).
Proof.
  unfold Py.decimal.
  induction d; cbn [digits_of fold_left Pos.of_uint];
    [ reflexivity | exact IHd
    | exact (decimal_acc d 1) | exact (decimal_acc d 2) | exact (decimal_acc d 3)
    | exact (decimal_acc d 4) | exact (decimal_acc d 5) | exact (decimal_acc d 6)
    | exact (decimal_acc d 7) | exact (decimal_acc d 8) | exact (decimal_acc d 9) ].
Qed.

Lemma digit_run_uint d :
  Py.digit_run (DecimalString.NilEmpty.string_of_uint d) = (digits_of d, EmptyString).
Proof.
  induction d; [reflexivity|..];
    cbn [DecimalString.NilEmpty.string_of_uint digits_of];
    (destruct d;
     [reflexivity
     |cbn [DecimalString.NilEmpty.string_of_uint] in *;
      cbn [Py.digit_run]; cbn [Py.digit_run] in IHd; rewrite IHd; reflexivity..]).
Qed.

Lemma uint_text_read u :
  u <> Decimal.Nil ->
  DecimalString.NilZero.string_of_uint u = DecimalString.NilEmpty.string_of_uint u /\
  Py.sign (DecimalString.NilEmpty.string_of_uint u) =
    (false, DecimalString.NilEmpty.string_of_uint u) /\
  digits_of u <> [].
Proof. destruct u; [congruence|..]; intros _; repeat split; discriminate. Qed.

Lemma str_int_chars n : string_forall is_int_char (str_int n) = true.
Proof.
  unfold str_int. destruct n as [|q|q]; [reflexivity|..];
    cbn [Z.to_int DecimalString.NilZero.string_of_int];
    destruct (uint_text_read (Pos.to_uint q) (DecimalPos.Unsigned.to_uint_nonnil q))
      as (-> & _ & _).
  - apply uint_text_int_chars.
  - cbn [string_forall]. now rewrite uint_text_int_chars.
Qed.

Lemma int_str_int n : Py.int (str_int n) = Some n.
Proof.
  unfold Py.int.
  rewrite (strip_int_text Py.isblank) by
    (try apply str_int_chars; intros c Hc; apply (int_char_facts c Hc)).
  unfold str_int. destruct n as [|q|q]; [reflexivity|..];
    cbn [Z.to_int DecimalString.NilZero.string_of_int];
    destruct (uint_text_read (Pos.to_uint q) (DecimalPos.Unsigned.to_uint_nonnil q))
      as (-> & Hsign & Hne).
  - rewrite Hsign, digit_run_uint.
    pose proof (decimal_of_uint (Pos.to_uint q)) as Hd.
    rewrite DecimalPos.Unsigned.of_to in Hd.
    destruct (digits_of (Pos.to_uint q)) as [|x ds]; [congruence|].
    cbn [Py.apply_sign]. now rewrite Hd.
  - cbn [Py.sign]. rewrite digit_run_uint.
    pose proof (decimal_of_uint (Pos.to_uint q)) as Hd.
    rewrite DecimalPos.Unsigned.of_to in Hd.
    destruct (digits_of (Pos.to_uint q)) as [|x ds]; [congruence|].
    cbn [Py.apply_sign]. now rewrite Hd.
Qed.

(** X15. Integers survive the line format: for every integer [n] that
    the interpreter can print, [int] reads the decimal text [str(n)] back
    as [n], and [_convert_value] turns that text into the integer [n],
    never into a boolean, a float or a string. *)
Theorem integer_text_is_read_back n :
  (Z.abs n < 10 ^ 4300)%Z ->
  Py.int (str_int n) = Some n /\ _convert_value (str_int n) = VInt n.
Proof.
  intros _. split; [apply int_str_int|].
  pose proof (str_int_chars n) as Hc.
  rewrite convert_typed. unfold Py.strip_chars.
  rewrite (strip_int_text (fun c => Py.contains c quotes)) by
    (try assumption; intros c H; apply (int_char_facts c H)).
  unfold typed. rewrite lower_int_text by assumption.
  destruct (int_text_is_no_keyword _ Hc) as [-> ->].
  rewrite no_point_in_int_text by assumption.
  now rewrite int_str_int.
Qed.

Lemma integer_text_is_read_back_witness :
  (Z.abs (-65535) < 10 ^ 4300)%Z /\
  str_int (-65535) = "-65535" /\
  _convert_value (str_int (-65535)) = VInt (-65535).
Proof.
  assert (H : (Z.abs (-65535) < 10 ^ 4300)%Z).
  { apply Z.ltb_lt. vm_compute. reflexivity. }
  split; [exact H|]. split; [reflexivity|].
  exact (proj2 (integer_text_is_read_back (-65535) H)).
Defined.

(** * The user functions of the module *)

Lemma get_app {A} k (d a : dict A) :
  Dict.get k (d ++ a) =
  match Dict.get k d with Some v => Some v | None => Dict.get k a end.
Proof.
  induction d as [|[k1 v1] d IH]; simpl; [reflexivity|].
  now destruct (String.eqb k1 k).
Qed.

Lemma set_absent {A} k (v : A) d :
  Dict.get k d = None -> Dict.set k v d = d ++ [(k, v)].
Proof.
  induction d as [|[k1 v1] d IH]; simpl; [reflexivity|].
  destruct (String.eqb k1 k); [discriminate|]. intros H. now rewrite IH.
Qed.

Lemma setdefault_app k v d :
  setdefault k v d = d ++ (if Dict.mem k d then [] else [(k, v)]).
Proof.
  unfold setdefault, Dict.mem. destruct (Dict.get k d) eqn:Hg.
  - now rewrite app_nil_r.
  - now apply set_absent.
Qed.

Lemma fold_setdefault ds : forall d,
  exists added,
    fold_left (fun d kv => setdefault (fst kv) (snd kv) d) ds d = d ++ added /\
    forall k, Dict.get k (d ++ added) =
              match Dict.get k d with Some v => Some v | None => Dict.get k ds end.
Proof.
  induction ds as [|[k0 v0] ds IH]; intros d; simpl.
  - exists []. rewrite app_nil_r. split; [reflexivity|].
    intros k. now destruct (Dict.get k d).
  - destruct (IH (setdefault k0 v0 d)) as (added & Hfold & Hget).
    rewrite setdefault_app in *.
    exists ((if Dict.mem k0 d then [] else [(k0, v0)]) ++ added).
    rewrite app_assoc. split; [exact Hfold|].
    intros k. rewrite Hget, get_app. destruct (Dict.get k d) as [v|] eqn:Hk.
    + reflexivity.
    + unfold Dict.mem. destruct (String.eqb_spec k0 k) as [->|Hne].
      * rewrite Hk. simpl. now rewrite String.eqb_refl.
      * destruct (Dict.get k0 d); simpl; [reflexivity|].
        destruct (String.eqb_spec k0 k); [contradiction|reflexivity].
Qed.

Lemma fold_setdefault_present ds : forall d,
  (forall k v, In (k, v) ds -> Dict.mem k d = true) ->
  fold_left (fun d kv => setdefault (fst kv) (snd kv) d) ds d = d.
Proof.
  induction ds as [|[k0 v0] ds IH]; intros d Hall; simpl; [reflexivity|].
  unfold setdefault at 2. simpl. rewrite (Hall k0 v0) by now left.
  apply IH. intros k v Hin. apply (Hall k v). now right.
Qed.

Lemma wf_app_absent {A} (d : dict A) k v :
  Dict.wf d -> Dict.get k d = None -> Dict.wf (d ++ [(k, v)]).
Proof. intros Hwf Hk. rewrite <- (set_absent k v d Hk). now apply wf_set. Qed.

Lemma wf_fold_setdefault ds : forall d,
  Dict.wf d -> Dict.wf (fold_left (fun d kv => setdefault (fst kv) (snd kv) d) ds d).
Proof.
  induction ds as [|[k0 v0] ds IH]; intros d Hwf; simpl; [assumption|].
  apply IH. unfold setdefault. destruct (Dict.mem k0 d); [assumption|now apply wf_set].
Qed.

(** X16. [create_user] looks at the presence of the required fields, not
    at their values: it raises exactly when the keyword [name] or the
    keyword [email] is not given, and the set shown in the message is then
    made of the required fields that are not given; a field given with an
    empty or [None] value counts as given. *)
Theorem create_user_requires_name_and_email user_info :
  ((exists missing, create_user user_info = MissingRequired missing) <->
   Dict.mem "name" user_info = false \/ Dict.mem "email" user_info = false) /\
  (forall missing,
     create_user user_info = MissingRequired missing ->
     missing <> [] /\
     forall f, In f missing <->
               In f required_fields /\ Dict.mem f user_info = false) /\
  (forall v w rest,
     exists user, create_user (("name", v) :: ("email", w) :: rest) = User user).
Proof.
  unfold create_user, required_fields. cbn [forallb List.filter].
  split; [|split].
  - destruct (Dict.mem "name" user_info), (Dict.mem "email" user_info);
      cbn [andb negb]; split; intros H; try (now eexists); try tauto;
      try (destruct H as [m H]; discriminate); destruct H; discriminate.
  - intros missing.
    destruct (Dict.mem "name" user_info) eqn:Hn,
             (Dict.mem "email" user_info) eqn:He; cbn [andb negb];
      intros [= <-]; (split; [discriminate|]); intros f; simpl;
      intuition (subst; try congruence; auto).
  - intros v w rest. eexists. reflexivity.
Qed.

(** X17. When [name] and [email] are given, [create_user] returns the
    keywords it received, in their order and with their values untouched,
    followed by the defaults of the optional fields that were not given:
    a value passed for [active], [role] or [created_at] is never
    overwritten, and no other key is added. *)
Theorem create_user_fills_defaults user_info :
  Dict.mem "name" user_info = true -> Dict.mem "email" user_info = true ->
  exists user added,
    create_user user_info = User user /\
    user = user_info ++ added /\
    (forall k v, Dict.get k user_info = Some v -> Dict.get k user = Some v) /\
    (forall k, Dict.get k user_info = None -> Dict.get k user = Dict.get k defaults) /\
    (Dict.wf user_info -> Dict.wf user).
Proof.
  intros Hn He. unfold create_user, required_fields. cbn [forallb].
  rewrite Hn, He. cbn [andb negb].
  destruct (fold_setdefault defaults user_info) as (added & Hfold & Hget).
  exists (user_info ++ added), added. rewrite Hfold.
  split; [reflexivity|]. split; [reflexivity|]. split; [|split].
  - intros k v Hk. now rewrite Hget, Hk.
  - intros k Hk. now rewrite Hget, Hk.
  - intros Hwf. rewrite <- Hfold. now apply wf_fold_setdefault.
Qed.

Lemma create_user_fills_defaults_witness :
  Dict.mem "name" [("name", VStr "Bob"); ("email", VStr "bob@example.com");
                   ("role", VStr "admin")] = true /\
  Dict.mem "email" [("name", VStr "Bob"); ("email", VStr "bob@example.com");
                    ("role", VStr "admin")] = true /\
  exists user added,
    create_user [("name", VStr "Bob"); ("email", VStr "bob@example.com");
                 ("role", VStr "admin")] = User user /\
    user = [("name", VStr "Bob"); ("email", VStr "bob@example.com");
            ("role", VStr "admin")] ++ added.
Proof.
  split; [reflexivity|]. split; [reflexivity|].
  destruct (create_user_fills_defaults
              [("name", VStr "Bob"); ("email", VStr "bob@example.com");
               ("role", VStr "admin")] eq_refl eq_refl)
    as (user & added & H1 & H2 & _).
  now exists user, added.
Defined.

(** X18. [create_user] is idempotent: the mapping it returns already has
    every required and every optional field, so passing it back changes
    nothing. *)
Theorem create_user_idempotent user_info user :
  create_user user_info = User user -> create_user user = User user.
Proof.
  unfold create_user, required_fields. cbn [forallb].
  set (fill := fold_left (fun d kv => setdefault (fst kv) (snd kv) d) defaults).
  destruct (Dict.mem "name" user_info) eqn:Hn; [|discriminate].
  destruct (Dict.mem "email" user_info) eqn:He; [|discriminate].
  cbn [andb negb]. intros [= <-].
  destruct (fold_setdefault defaults user_info) as (added & Hfold & Hget).
  fold fill in Hfold. rewrite Hfold.
  assert (Hmem : forall k, Dict.mem k user_info = true \/ Dict.mem k defaults = true ->
                           Dict.mem k (user_info ++ added) = true).
  { intros k. unfold Dict.mem. rewrite Hget.
    destruct (Dict.get k user_info); [reflexivity|].
    destruct (Dict.get k defaults); [reflexivity|]. intros [H|H]; discriminate. }
  rewrite !Hmem by now left. cbn [andb negb]. f_equal. subst fill.
  apply fold_setdefault_present. intros k v Hin. apply Hmem. right.
  eapply In_mem, Hin.
Qed.

Lemma create_user_idempotent_witness :
  create_user [("name", VStr "Alice"); ("email", VStr "alice@example.com")]
  = User [("name", VStr "Alice"); ("email", VStr "alice@example.com");
          ("active", VBool true); ("role", VStr "user"); ("created_at", VNone)] /\
  create_user [("name", VStr "Alice"); ("email", VStr "alice@example.com");
               ("active", VBool true); ("role", VStr "user"); ("created_at", VNone)]
  = User [("name", VStr "Alice"); ("email", VStr "alice@example.com");
          ("active", VBool true); ("role", VStr "user"); ("created_at", VNone)].
Proof.
  assert (H : create_user [("name", VStr "Alice"); ("email", VStr "alice@example.com")]
              = User [("name", VStr "Alice"); ("email", VStr "alice@example.com");
                      ("active", VBool true); ("role", VStr "user");
                      ("created_at", VNone)]) by reflexivity.
  split; [exact H|]. exact (create_user_idempotent _ _ H).
Defined.

(** X19. [validate_user_data] tests the truth of the two fields, email
    first: it raises "Email required" exactly when email is missing or
    false (empty, zero, [None]), whatever name is; it raises "Name
    required" exactly when email is true and name is missing or false;
    otherwise it returns [True].  Data that it accepts always has both
    required fields, so [create_user] accepts it too, and the defaults
    that [create_user] adds never change the verdict. *)
Theorem validate_user_data_verdict user_data :
  (validate_user_data user_data = Raise (Exn ValueError [Lit "Email required"]) <->
   get_truthy "email" user_data = false) /\
  (validate_user_data user_data = Raise (Exn ValueError [Lit "Name required"]) <->
   get_truthy "email" user_data = true /\ get_truthy "name" user_data = false) /\
  (validate_user_data user_data = Return true <->
   get_truthy "email" user_data = true /\ get_truthy "name" user_data = true) /\
  (validate_user_data user_data = Return true ->
   exists user, create_user user_data = User user) /\
  (forall user, create_user user_data = User user ->
                validate_user_data user = validate_user_data user_data).
Proof.
  split; [|split; [|split; [|split]]].
  - unfold validate_user_data.
    destruct (get_truthy "email" user_data), (get_truthy "name" user_data); simpl;
      split; intros H; try reflexivity; discriminate.
  - unfold validate_user_data.
    destruct (get_truthy "email" user_data), (get_truthy "name" user_data); simpl;
      split; intros H; try (now split); try discriminate; destruct H; discriminate.
  - unfold validate_user_data.
    destruct (get_truthy "email" user_data), (get_truthy "name" user_data); simpl;
      split; intros H; try (now split); try discriminate; destruct H; discriminate.
  - unfold validate_user_data, get_truthy, create_user, required_fields, Dict.mem.
    cbn [forallb].
    destruct (Dict.get "email" user_data); [|discriminate].
    destruct (Dict.get "name" user_data);
      [|destruct (truthy v); discriminate].
    intros _. now eexists.
  - intros user. unfold create_user, required_fields. cbn [forallb].
    set (fill := fold_left (fun d kv => setdefault (fst kv) (snd kv) d) defaults).
    destruct (Dict.mem "name" user_data) eqn:Hn; [|discriminate].
    destruct (Dict.mem "email" user_data) eqn:He; [|discriminate].
    cbn [andb negb]. intros [= <-].
    destruct (fold_setdefault defaults user_data) as (added & Hfold & Hget).
    fold fill in Hfold. rewrite Hfold.
    unfold validate_user_data, get_truthy. rewrite !Hget.
    unfold Dict.mem in Hn, He.
    destruct (Dict.get "email" user_data); [|discriminate].
    now destruct (Dict.get "name" user_data); [|discriminate].
Qed.

(** * The URL builder of the module *)

Lemma lstrip_all_chars p q s :
  (forall c, q c = true -> p c = true) ->
  string_forall q s = true -> Py.lstrip_by p s = EmptyString.
Proof.
  intros Hq. induction s as [|c s IH]; simpl; [reflexivity|].
  intros H. apply andb_prop in H as [Hc Hs]. now rewrite (Hq c Hc), IH.
Qed.

Lemma filter_filter {A} (f : A -> bool) l :
  List.filter f (List.filter f l) = List.filter f l.
Proof.
  induction l as [|x l IH]; simpl; [reflexivity|].
  destruct (f x) eqn:Hx; simpl; [now rewrite Hx, IH|exact IH].
Qed.

Lemma filter_none {A} (f : A -> bool) l :
  forallb (fun x => negb (f x)) l = true -> List.filter f l = [].
Proof.
  induction l as [|x l IH]; simpl; [reflexivity|].
  intros H. apply andb_prop in H as [Hx Hl].
  destruct (f x); [discriminate|auto].
Qed.

Lemma filter_some {A} (f : A -> bool) l :
  existsb f l = true -> exists x rest, List.filter f l = x :: rest.
Proof.
  induction l as [|x l IH]; simpl; [discriminate|].
  destruct (f x); [now eexists _, _|]. simpl. exact IH.
Qed.

Lemma join_nonempty sep x rest : x <> EmptyString -> join sep (x :: rest) <> EmptyString.
Proof.
  intros Hx. simpl. destruct rest; [assumption|].
  destruct x; [congruence|discriminate].
Qed.

(** X20. The URL that [flexible_api_call] builds: slashes at the end of
    the endpoint are dropped, so an endpoint written with or without them
    gives the same result; parameters whose value is [None] are left out
    of the URL, though they stay in the returned [params]; when every
    parameter is [None], or there is none, the URL is the endpoint and the
    path parts joined by slashes, with no question mark; otherwise it is
    that text, a question mark and a query that is not empty. *)
Theorem api_call_url str_other endpoint path_parts method params :
  Dict.get "params" (flexible_api_call str_other endpoint path_parts method params)
    = Some (VDict params) /\
  (forall slashes,
     string_forall (fun c => Ascii.eqb c "/") slashes = true ->
     flexible_api_call str_other (endpoint ++ slashes)%string path_parts method params =
     flexible_api_call str_other endpoint path_parts method params) /\
  Dict.get "url" (flexible_api_call str_other endpoint path_parts method params) =
    Dict.get "url" (flexible_api_call str_other endpoint path_parts method
                      (List.filter (fun kv => is_not_None (snd kv)) params)) /\
  (forallb (fun kv => negb (is_not_None (snd kv))) params = true ->
   Dict.get "url" (flexible_api_call str_other endpoint path_parts method params) =
     Some (VStr (join "/" (Py.rstrip_by (fun c => Py.contains c "/") endpoint
                           :: map (py_str str_other) path_parts)))) /\
  (existsb (fun kv => is_not_None (snd kv)) params = true ->
   exists query,
     query <> EmptyString /\
     Dict.get "url" (flexible_api_call str_other endpoint path_parts method params) =
       Some (VStr (join "/" (Py.rstrip_by (fun c => Py.contains c "/") endpoint
                             :: map (py_str str_other) path_parts)
                   ++ "?" ++ query)%string)).
Proof.
  split; [reflexivity|]. split; [|split; [|split]].
  - intros slashes Hs. unfold flexible_api_call.
    rewrite rstrip_app_all; [reflexivity|].
    apply (lstrip_all_chars _ (fun c => Ascii.eqb c "/")); [|assumption].
    intros c Hc. apply Ascii.eqb_eq in Hc. subst c. reflexivity.
  - unfold flexible_api_call, query_string. now rewrite filter_filter.
  - intros Hall. unfold flexible_api_call, query_string.
    now rewrite filter_none.
  - intros Hex. unfold flexible_api_call, query_string.
    destruct (filter_some _ _ Hex) as ([k v] & rest & ->).
    set (query := join "&" _).
    assert (Hq : query <> EmptyString).
    { subst query. cbn [map]. apply join_nonempty. cbn [fst snd].
      now destruct k. }
    exists query. split; [assumption|].
    destruct (String.eqb_spec query ""); [contradiction|reflexivity].
Qed.

Lemma api_call_url_witness :
  string_forall (fun c => Ascii.eqb c "/") "//" = true /\
  existsb (fun kv => is_not_None (snd kv)) [("limit", VInt 10); ("skip", VNone)] = true /\
  flexible_api_call (fun _ => EmptyString) ("https://api.example.com" ++ "//")%string
    [VStr "users"; VInt 123] (VStr "GET") [("limit", VInt 10); ("skip", VNone)] =
  flexible_api_call (fun _ => EmptyString) "https://api.example.com"
    [VStr "users"; VInt 123] (VStr "GET") [("limit", VInt 10); ("skip", VNone)] /\
  Dict.get "url"
    (flexible_api_call (fun _ => EmptyString) "https://api.example.com"
       [VStr "users"; VInt 123] (VStr "GET") [("limit", VInt 10); ("skip", VNone)]) =
  Some (VStr "https://api.example.com/users/123?limit=10").
Proof.
  split; [reflexivity|]. split; [reflexivity|]. split; [|reflexivity].
  destruct (api_call_url (fun _ => EmptyString) "https://api.example.com"
              [VStr "users"; VInt 123] (VStr "GET")
              [("limit", VInt 10); ("skip", VNone)]) as (_ & H & _).
  apply (H "//"). reflexivity.
Defined.

Lemma create_user_requires_name_and_email_witness :
  create_user [("name", VNone)] = MissingRequired ["email"] /\
  ["email"] <> [] /\
  (In "email" ["email"] <->
   In "email" required_fields /\ Dict.mem "email" [("name", VNone)] = false).
Proof.
  assert (H : create_user [("name", VNone)] = MissingRequired ["email"]) by reflexivity.
  split; [exact H|].
  destruct (create_user_requires_name_and_email [("name", VNone)]) as (_ & Hm & _).
  destruct (Hm ["email"] H) as [Hne Hin]. split; [exact Hne|apply Hin].
Defined.

Lemma validate_user_data_verdict_witness :
  validate_user_data [("email", VStr "a@b.c"); ("name", VStr "Ann")] = Return true /\
  exists user,
    create_user [("email", VStr "a@b.c"); ("name", VStr "Ann")] = User user.
Proof.
  assert (H : validate_user_data [("email", VStr "a@b.c"); ("name", VStr "Ann")]
              = Return true) by reflexivity.
  split; [exact H|].
  destruct (validate_user_data_verdict [("email", VStr "a@b.c"); ("name", VStr "Ann")])
    as (_ & _ & _ & Hc & _).
  exact (Hc H).
Defined.

(** * What [parse] never does *)

Lemma loads_None E s :
  loads E s = None ->
  exists e t0, contribution E s = (Raise e, t0) \/
               contribution E s = (Return (NotMapping e), t0).
Proof.
  unfold loads. destruct (contribution E s) as [[[items|e]|e] t0]; [discriminate|..];
    intros _; exists e, t0; auto.
Qed.

(** X21. [parse] stops at the first source that fails: when the sources
    before [s] are processed and [s] is not (it is unsupported, its
    [to_dict] raises, or what it yields is no mapping), the whole outcome
    of the call (exception, store and events) is the same whatever
    sources follow [s] and whatever the overrides are; the later sources
    are neither read nor called. *)
Theorem sources_after_failure_untouched E h self base vs ts pre s :
  parser_at h self base vs ts ->
  Forall (fun s' => is_Some (loads E s')) pre ->
  loads E s = None ->
  forall post overrides post' overrides',
    parse E self (pre ++ s :: post) overrides h =
    parse E self (pre ++ s :: post') overrides' h /\
    returned (parse E self (pre ++ s :: post) overrides h) = None.
Proof.
  intros Hp Hpre Hs post overrides post' overrides'.
  destruct (loads_None E s Hs) as (e & t0 & Hc).
  destruct (merged_loads E pre base Hpre) as (d1 & t1 & Hm1).
  assert (Hm : forall post0, merged E base (pre ++ s :: post0) = (Raise e, d1, t1 ++ t0)).
  { intros post0. rewrite merged_app, Hm1. simpl. now destruct Hc as [-> | ->]. }
  rewrite (parse_sources_fail E self _ overrides h base vs ts e d1 _ Hp (Hm post)).
  rewrite (parse_sources_fail E self _ overrides' h base vs ts e d1 _ Hp (Hm post')).
  now split.
Qed.

Lemma sources_after_failure_untouched_witness :
  parser_at demo_heap demo_self demo_defaults
    [("port", port_ok); ("max_connections", max_connections_ok)]
    [("host", lower_strip)] /\
  loads demo_env (Source "int" IsNeither None) = None /\
  parse demo_env demo_self
    ([] ++ Source "int" IsNeither None :: [path_source "sample_config.txt"])
    [("port", VInt 1)] demo_heap =
  parse demo_env demo_self ([] ++ Source "int" IsNeither None :: []) [] demo_heap.
Proof.
  split; [exact demo_parser_at|]. split; [reflexivity|].
  apply (sources_after_failure_untouched demo_env demo_heap demo_self demo_defaults
           _ _ [] (Source "int" IsNeither None) demo_parser_at);
    [constructor|reflexivity].
Defined.

Lemma load_prints E file_path m :
  In (Print m) (snd (_load_from_file E file_path)) ->
  exists e, read_file E file_path = Raise e /\
            issubclass (exc_class e) Exception = true.
Proof.
  unfold _load_from_file. destruct (read_file E file_path) as [o|e]; simpl; [tauto|].
  destruct (issubclass (exc_class e) FileNotFoundError) eqn:Hf; simpl.
  - intros _. exists e. split; [reflexivity|].
    now apply FileNotFoundError_is_Exception.
  - destruct (issubclass (exc_class e) Exception) eqn:Hx; simpl; [|tauto].
    intros _. now exists e.
Qed.

Lemma merged_prints E m sources : forall d,
  In (Print m) (snd (merged E d sources)) ->
  exists s file_path e,
    In s sources /\ kind s = IsStr file_path /\
    read_file E file_path = Raise e /\ issubclass (exc_class e) Exception = true.
Proof.
  assert (Hc : forall s, In (Print m) (snd (contribution E s)) ->
    exists file_path e, kind s = IsStr file_path /\
      read_file E file_path = Raise e /\ issubclass (exc_class e) Exception = true).
  { intros s. unfold contribution. destruct (kind s) as [items|file_path|]; simpl.
    - tauto.
    - intros Hin. destruct (load_prints E file_path m Hin) as (e & He & Hx).
      now exists file_path, e.
    - destruct (to_dict s); simpl; [|tauto]. intros [Hev|[]]. discriminate. }
  induction sources as [|s rest IH]; intros d; simpl; [tauto|].
  specialize (Hc s).
  assert (Hhere : In (Print m) (snd (contribution E s)) ->
    exists s0 file_path e, In s0 (s :: rest) /\ kind s0 = IsStr file_path /\
      read_file E file_path = Raise e /\ issubclass (exc_class e) Exception = true).
  { intros Hin. destruct (Hc Hin) as (fp & e & H1 & H2 & H3).
    exists s, fp, e. repeat split; try assumption. now left. }
  destruct (contribution E s) as [[[items|e]|e] t]; simpl in *; try exact Hhere.
  specialize (IH (Dict.update d items)).
  destruct (merged E (Dict.update d items) rest) as [[r d'] t']. simpl in *.
  intros Hin. apply in_app_or in Hin as [Hin|Hin]; [auto|].
  destruct (IH Hin) as (s0 & fp & e & H0 & H1 & H2 & H3).
  exists s0, fp, e. repeat split; try assumption. now right.
Qed.

(** X22. [parse] prints nothing of its own: a line is printed during a
    call only for a source that is a file path whose opening or reading
    raised an exception that the loader absorbed.  A call whose file
    sources all load, or that has no file source, prints nothing. *)
Theorem parse_prints_only_for_failed_files E h self base vs ts sources overrides m :
  parser_at h self base vs ts -> Dict.wf base ->
  In (Print m) (snd (parse E self sources overrides h)) ->
  exists s file_path e,
    In s sources /\ kind s = IsStr file_path /\
    read_file E file_path = Raise e /\
    issubclass (exc_class e) Exception = true.
Proof.
  intros Hp Hwf.
  pose proof (merged_prints E m sources base) as Hev.
  destruct (merged E base sources) as [[[[]|e] d] t] eqn:Hm.
  - destruct (parse_outcome E self sources overrides h base vs ts d t Hp Hwf Hm)
      as (-> & _). intros Hin.
    apply in_app_or in Hin as [Hin|Hin]; [now apply Hev|].
    apply in_app_or in Hin as [Hin|Hin].
    + apply transformer_calls_In in Hin as (k & v & Hk & _). discriminate.
    + apply checked_events_kind in Hin as (k & f & v & Hk & _). discriminate.
  - rewrite (parse_sources_fail E self _ overrides h base vs ts e d t Hp Hm).
    exact Hev.
Qed.

Lemma parse_prints_only_for_failed_files_witness :
  parser_at demo_heap demo_self demo_defaults
    [("port", port_ok); ("max_connections", max_connections_ok)]
    [("host", lower_strip)] /\
  Dict.wf demo_defaults /\
  In (Print [Lit "Warning: Config file "; Lit "absent.txt"; Lit " not found. Skipping."])
     (snd (parse demo_env demo_self [path_source "absent.txt"] [] demo_heap)) /\
  exists s file_path e,
    In s [path_source "absent.txt"] /\ kind s = IsStr file_path /\
    read_file demo_env file_path = Raise e /\
    issubclass (exc_class e) Exception = true.
Proof.
  assert (Hin : In (Print [Lit "Warning: Config file "; Lit "absent.txt";
                           Lit " not found. Skipping."])
                   (snd (parse demo_env demo_self [path_source "absent.txt"] []
                           demo_heap)))
    by (vm_compute; tauto).
  split; [exact demo_parser_at|]. split; [exact demo_defaults_wf|].
  split; [exact Hin|].
  exact (parse_prints_only_for_failed_files demo_env demo_heap demo_self demo_defaults
           _ _ _ _ _ demo_parser_at demo_defaults_wf Hin).
Defined.
